(** * llm-stream-example: the SSE transport of [src/main.js] and the
    browser client of [public/chat.js]

  The server part embeds the two Express route handlers as programs in a
  small effect monad (a log of the calls made on [res] and [console],
  plus normal/abrupt completion, so that [try]/[catch] and [for await]
  read as in the source).  The client part embeds the [stream-form]
  submit handler, the [onmessage] callback and the helper functions of
  [chat.js] over the same kind of log, this time of DOM assignments.

  JavaScript strings are sequences of UTF-16 code units; they are
  modelled as [list N].  JavaScript numbers are IEEE 754 binary64
  values; the readings of [performance.now()] are primitive floats. *)

From Stdlib Require Import List NArith ZArith Bool Lia.
From Stdlib Require Import Ascii String DecimalString.
From Stdlib Require Import Floats.PrimFloat Floats.FloatOps Floats.SpecFloat.
Import ListNotations.

(* ================================================================== *)
(** ** JavaScript strings *)

Module JsString.

Definition jsstring : Type := list N.

(** An ASCII literal of the source, as code units. *)
Definition lit (s : string) : jsstring :=
  List.map N_of_ascii (list_ascii_of_string s).

Definition DQUOTE : N := 34.      (* U+0022 *)
Definition BACKSLASH : N := 92.   (* U+005C *)
Definition LF : N := 10.          (* U+000A *)

Definition is_empty (s : jsstring) : bool :=
  match s with [] => true | _ :: _ => false end.

(** [s1 === s2] on strings. *)
Fixpoint strict_eq (s1 s2 : jsstring) : bool :=
  match s1, s2 with
  | [], [] => true
  | c :: t, d :: u => (c =? d)%N && strict_eq t u
  | _, _ => false
  end.

(** Number::toString of an integer-valued number (absolute value below
    1e21, where JavaScript prints plain decimal digits). *)
Definition of_integer (z : Z) : jsstring :=
  lit (NilZero.string_of_int (Z.to_int z)).

End JsString.
Import JsString.

(* ================================================================== *)
(** ** JSON.stringify on strings (ECMA-262 QuoteJSONString) *)

Module JSON.

Definition hex_digit (n : N) : N :=
  if (n <? 10)%N then (48 + n)%N else (87 + n)%N.

(** [\uXXXX] with four lower-case hexadecimal digits. *)
Definition UnicodeEscape (c : N) : jsstring :=
  [ BACKSLASH; 117%N;
    hex_digit ((c / 4096) mod 16); hex_digit ((c / 256) mod 16);
    hex_digit ((c / 16) mod 16);   hex_digit (c mod 16) ]%N.

Definition is_leading_surrogate (c : N) : bool :=
  ((55296 <=? c) && (c <=? 56319))%N.
Definition is_trailing_surrogate (c : N) : bool :=
  ((56320 <=? c) && (c <=? 57343))%N.

(** The two-character escapes of the JSON single-character table. *)
Definition table_escape (c : N) : option N :=
  if (c =? 8)%N then Some 98%N          (* backspace, as \b *)
  else if (c =? 9)%N then Some 116%N    (* tab, as \t *)
  else if (c =? 10)%N then Some 110%N   (* line feed, as \n *)
  else if (c =? 12)%N then Some 102%N   (* form feed, as \f *)
  else if (c =? 13)%N then Some 114%N   (* carriage return, as \r *)
  else if (c =? 34)%N then Some 34%N    (* quotation mark, after a backslash *)
  else if (c =? 92)%N then Some 92%N    (* backslash, doubled *)
  else None.

(** One code unit that is not part of a surrogate pair. *)
Definition quote_unit (c : N) : jsstring :=
  match table_escape c with
  | Some e => [BACKSLASH; e]
  | None =>
      if (c <? 32)%N || is_leading_surrogate c || is_trailing_surrogate c
      then UnicodeEscape c
      else [c]
  end.

(** The body of the quoted string: code points are read off the code
    units (a leading surrogate followed by a trailing one is one code
    point and is copied unchanged; a lone surrogate is escaped). *)
Fixpoint quote_body (s : jsstring) : jsstring :=
  match s with
  | [] => []
  | c :: rest =>
      match rest with
      | d :: rest' =>
          if is_leading_surrogate c && is_trailing_surrogate d
          then c :: d :: quote_body rest'
          else quote_unit c ++ quote_body rest
      | [] => quote_unit c ++ quote_body rest
      end
  end.

Definition QuoteJSONString (s : jsstring) : jsstring :=
  DQUOTE :: quote_body s ++ [DQUOTE].

End JSON.

(* ================================================================== *)
(** ** Values, objects and the producer *)

(** The values [content] takes: the producer interface is
  [{content: text}] with the content possibly missing. *)
Inductive JsValue : Type :=
| VUndefined
| VString (s : jsstring).

(** [!v] *)
Definition falsy (v : JsValue) : bool :=
match v with
| VUndefined => true
| VString s => is_empty s
end.

(** [`${JSON.stringify(v)}`] *)
Definition JSON_stringify (v : JsValue) : jsstring :=
match v with
| VUndefined => lit "undefined"
| VString s => JSON.QuoteJSONString s
end.

(** A message object of the producer: a chunk of the stream or the
  single-shot response.  [None] is an object without the property. *)
Record Message : Type := mkMessage { content_prop : option JsValue }.

(** [m.content] *)
Definition content (m : Message) : JsValue :=
match content_prop m with
| Some v => v
| None => VUndefined
end.

(** ["content" in m] *)
Definition has_content (m : Message) : bool :=
match content_prop m with
| Some _ => true
| None => false
end.

Definition JsError : Type := jsstring.

(** How an evaluation ends: with a value, or with a thrown error (for an
  awaited promise: fulfilled or rejected). *)
Inductive Completion (A : Type) : Type :=
| Normal (a : A)
| Thrown (e : JsError).
Arguments Normal {A} a.
Arguments Thrown {A} e.

(** A finite asynchronous sequence: it yields elements and then either
  completes or raises. *)
Inductive AsyncSeq (A : Type) : Type :=
| Done
| Fail (e : JsError)
| Yield (a : A) (rest : AsyncSeq A).
Arguments Done {A}.
Arguments Fail {A} e.
Arguments Yield {A} a rest.

(** [a1, ..., an] yielded in order, then the given end. *)
Fixpoint yields {A : Type} (l : list A) (fin : AsyncSeq A) : AsyncSeq A :=
match l with
| [] => fin
| a :: l' => Yield a (yields l' fin)
end.

(** The [ChatOpenAI] client, opaque to the server: what [llm.stream] and
  [llm.invoke] resolve to for a list of messages. *)
Record ChatOpenAI : Type := mkLLM {
stream : list JsValue -> Completion (AsyncSeq Message);
invoke : list JsValue -> Completion Message
}.

(** The message [new HumanMessage(query)] builds when it returns: its
    content is the query.  (How the constructor ends is
    [Routes.new_HumanMessage].) *)
Definition HumanMessage (query : JsValue) : JsValue := query.

Record Request : Type := mkRequest { query : JsValue }.

(* ================================================================== *)
(** ** Effects of a route handler *)

Inductive Effect : Type :=
| ResStatus (code : Z)                       (* res.status(code) *)
| ResSetHeader (name value : jsstring)       (* res.setHeader(name, value) *)
| ResWrite (data : jsstring)                 (* res.write(data) *)
| ResEnd                                     (* res.end() *)
| ResSend (body : JsValue)                   (* res.send(body) *)
| ConsoleError (label : jsstring) (e : JsError).

Module Eff.

Definition t (A : Type) : Type := (list Effect * Completion A)%type.

Definition ret {A : Type} (a : A) : t A := ([], Normal a).

Definition bind {A B : Type} (m : t A) (k : A -> t B) : t B :=
  match m with
  | (tr, Normal a) => let (tr', r) := k a in (tr ++ tr', r)
  | (tr, Thrown e) => (tr, Thrown e)
  end.

Definition emit (op : Effect) : t unit := ([op], Normal tt).

Definition throw {A : Type} (e : JsError) : t A := ([], Thrown e).

(** [await p] *)
Definition await {A : Type} (p : Completion A) : t A := ([], p).

(** [try { m } catch (error) { h error }] *)
Definition try_catch {A : Type} (m : t A) (h : JsError -> t A) : t A :=
  match m with
  | (tr, Normal a) => (tr, Normal a)
  | (tr, Thrown e) => let (tr', r) := h e in (tr ++ tr', r)
  end.

(** [for await (const x of s) { body x }] *)
Fixpoint for_await {A : Type} (s : AsyncSeq A) (body : A -> t unit) : t unit :=
  match s with
  | Done => ret tt
  | Fail e => throw e
  | Yield a rest => bind (body a) (fun _ => for_await rest body)
  end.

Definition trace {A : Type} (m : t A) : list Effect := fst m.
Definition completion {A : Type} (m : t A) : Completion A := snd m.

End Eff.

Declare Scope eff_scope.
Delimit Scope eff_scope with eff.
Notation "x <- m ;; k" := (Eff.bind m (fun x => k))
(at level 61, m at next level, right associativity) : eff_scope.
Notation "m ;; k" := (Eff.bind m (fun _ => k))
(at level 61, right associativity) : eff_scope.

(* ================================================================== *)
(** ** The server: [src/main.js] *)

Module Server.

Import Eff.
Local Open Scope eff_scope.

(** The frame of one fragment: [`data: ${JSON.stringify(content)}\n\n`]. *)
Definition frame (c : JsValue) : jsstring :=
  lit "data: " ++ JSON_stringify c ++ [LF; LF].

Definition stream_error_notice : jsstring :=
  lit "data: an error occurred while streaming response.".

Definition sse_headers : list (jsstring * jsstring) :=
  [ (lit "Content-Type", lit "text/event-stream");
    (lit "Cache-Control", lit "no-cache");
    (lit "Connection", lit "keep-alive") ].

(** The body of the [for await] loop of the stream route. *)
Definition forward_chunk (chunk : Message) : Eff.t unit :=
  let content := content chunk in
  if falsy content then ret tt                      (* continue *)
  else emit (ResWrite (frame content)).

(** [app.get('/stream', async (req, res) => ...)]: the [try] statement
    of the handler, with the producer client [llm] that
    [new ChatOpenAI] has built and the message of [new HumanMessage]
    (the run from the first statement on is [Routes.stream_handler]). *)
Definition get_stream (llm : ChatOpenAI) (req : Request) : Eff.t unit :=
  let messages := [HumanMessage (query req)] in
  try_catch
    ( stream <- await (stream llm messages) ;;
      emit (ResSetHeader (lit "Content-Type") (lit "text/event-stream")) ;;
      emit (ResSetHeader (lit "Cache-Control") (lit "no-cache")) ;;
      emit (ResSetHeader (lit "Connection") (lit "keep-alive")) ;;
      for_await stream forward_chunk ;;
      emit ResEnd )
    (fun error =>
      emit (ConsoleError (lit "streaming error:") error) ;;
      emit (ResWrite stream_error_notice) ;;
      emit ResEnd).

Definition no_answer : jsstring := lit "No answer was generated.".
Definition summary_error_notice : jsstring :=
  lit "An error occurred while generating the summary.".

(** [app.get('/normal', async (req, res) => ...)]: the [try] statement
    of the handler, as for [get_stream] (the run from the first
    statement on is [Routes.normal_handler]). *)
Definition get_normal (llm : ChatOpenAI) (req : Request) : Eff.t unit :=
  let messages := [HumanMessage (query req)] in
  try_catch
    ( response <- await (invoke llm messages) ;;
      let answer :=
        if has_content response then content response
        else VString no_answer in
      emit (ResSend answer) )
    (fun error =>
      emit (ConsoleError (lit "Error invoking LLM:") error) ;;
      emit (ResSend (VString summary_error_notice))).

(** *** What the client of the connection observes *)

(** The HTTP response built by the calls on [res]: Express starts from
    status 200 and no header; the headers in force are sent with the
    first piece of body. *)
Record Response : Type := mkResponse {
  statusCode : Z;
  headers : list (jsstring * jsstring);
  sentHeaders : option (list (jsstring * jsstring));
  body : list jsstring;
  writableEnded : bool
}.

Definition fresh_response : Response :=
  mkResponse 200 [] None [] false.

Definition flush_headers (r : Response) : option (list (jsstring * jsstring)) :=
  match sentHeaders r with
  | Some h => Some h
  | None => Some (headers r)
  end.

Definition send_text (v : JsValue) : jsstring :=
  match v with
  | VUndefined => []
  | VString s => s
  end.

Definition apply_effect (r : Response) (op : Effect) : Response :=
  match op with
  | ResStatus code =>
      mkResponse code (headers r) (sentHeaders r) (body r) (writableEnded r)
  | ResSetHeader name value =>
      mkResponse (statusCode r) (headers r ++ [(name, value)])
                 (sentHeaders r) (body r) (writableEnded r)
  | ResWrite data =>
      mkResponse (statusCode r) (headers r) (flush_headers r)
                 (body r ++ [data]) (writableEnded r)
  | ResEnd =>
      mkResponse (statusCode r) (headers r) (flush_headers r) (body r) true
  | ResSend v =>
      mkResponse (statusCode r) (headers r) (flush_headers r)
                 (body r ++ [send_text v]) true
  | ConsoleError _ _ => r
  end.

Definition response_of (tr : list Effect) : Response :=
  fold_left apply_effect tr fresh_response.

(** The pieces of body written with [res.write], in order. *)
Fixpoint writes (tr : list Effect) : list jsstring :=
  match tr with
  | [] => []
  | ResWrite d :: tr' => d :: writes tr'
  | _ :: tr' => writes tr'
  end.

(** The three framing headers are all among the headers that went out
    ahead of the body. *)
Definition has_header (hs : list (jsstring * jsstring))
           (h : jsstring * jsstring) : bool :=
  existsb (fun h' => strict_eq (fst h') (fst h) && strict_eq (snd h') (snd h)) hs.

Definition framing_headers_sent (r : Response) : bool :=
  match sentHeaders r with
  | Some hs => forallb (has_header hs) sse_headers
  | None => false
  end.

(** *** Vocabulary of the statements *)

(** A chunk carrying the text [s]. *)
Definition fragment (s : jsstring) : Message := mkMessage (Some (VString s)).

(** The contents of a chunk list that pass the [if (!content) continue]
    test, in order. *)
Definition kept_contents (chunks : list Message) : list JsValue :=
  filter (fun c => negb (falsy c)) (List.map content chunks).

Definition set_sse_headers : list Effect :=
  List.map (fun h => ResSetHeader (fst h) (snd h)) sse_headers.

Definition write_frames (cs : list JsValue) : list Effect :=
  List.map (fun c => ResWrite (frame c)) cs.

(** The two ways the producer fails after the fragments [fs]: the
    sequence raises once they are yielded, or, with no fragment at all,
    the call [llm.stream] itself is rejected. *)
Definition fails_after (llm : ChatOpenAI) (req : Request)
           (fs : list jsstring) (e : JsError) : Prop :=
  stream llm [HumanMessage (query req)]
    = Normal (yields (List.map fragment fs) (Fail e))
  \/ (fs = [] /\ stream llm [HumanMessage (query req)] = Thrown e).

Definition is_set_header (op : Effect) : bool :=
  match op with
  | ResSetHeader _ _ => true
  | _ => false
  end.

End Server.

(* ================================================================== *)
(** ** The client: [public/chat.js] *)

Module Client.

(** *** [cleanText]

    In the regular expressions below [\x22] stands for the quotation
    mark the source writes literally. *)

(** [text.replace(/^\x22/, '')]: without the [m] flag the anchor matches
    at index 0 only. *)
Definition replace_leading_quote (text : jsstring) : jsstring :=
  match text with
  | c :: rest => if (c =? DQUOTE)%N then rest else text
  | [] => []
  end.

(** [text.replace(/\x22\x22/g, '')]: every match of two adjacent quotes, found
    from left to right, each search resuming after the previous match. *)
Fixpoint replace_quote_pairs (text : jsstring) : jsstring :=
  match text with
  | [] => []
  | c :: rest =>
      match rest with
      | d :: rest' =>
          if (c =? DQUOTE)%N && (d =? DQUOTE)%N
          then replace_quote_pairs rest'
          else c :: replace_quote_pairs rest
      | [] => [c]
      end
  end.

(** [text.replace(/\x22$/, '')]: without the [m] flag the anchor matches
    at the end of the input only, so the one possible match is the last
    code unit. *)
Fixpoint replace_trailing_quote (text : jsstring) : jsstring :=
  match text with
  | [] => []
  | c :: rest =>
      match rest with
      | [] => if (c =? DQUOTE)%N then [] else [c]
      | _ :: _ => c :: replace_trailing_quote rest
      end
  end.

(** WhiteSpace and LineTerminator code points of ECMA-262, the ones
    [String.prototype.trim] removes. *)
Definition is_white_space (c : N) : bool :=
  ((9 <=? c) && (c <=? 13) || (c =? 32) || (c =? 160) || (c =? 5760)
   || (8192 <=? c) && (c <=? 8202) || (c =? 8232) || (c =? 8233)
   || (c =? 8239) || (c =? 8287) || (c =? 12288) || (c =? 65279))%N.

Fixpoint trimStart (text : jsstring) : jsstring :=
  match text with
  | [] => []
  | c :: rest => if is_white_space c then trimStart rest else text
  end.

Fixpoint trimEnd (text : jsstring) : jsstring :=
  match text with
  | [] => []
  | c :: rest =>
      match trimEnd rest with
      | [] => if is_white_space c then [] else [c]
      | kept => c :: kept
      end
  end.

(** [text.trim()] *)
Definition trim (text : jsstring) : jsstring := trimEnd (trimStart text).

Definition cleanText (text : jsstring) : jsstring :=
  trim (replace_trailing_quote (replace_quote_pairs (replace_leading_quote text))).

(** *** The page and the handlers *)

Inductive DomEffect : Type :=
| SetContainerHTML (html : jsstring)     (* container.innerHTML = html *)
| SetElapsedText (text : jsstring)       (* elapsedTimeText.innerText = text *)
| NewEventSource (query : jsstring)      (* new EventSource(`/stream?query=...`) *)
| CloseEventSource                       (* eventSource.close() *)
| LogError (label : jsstring).           (* console.error(label) *)

Definition loading_markup : jsstring :=
  lit "<p class=" ++ [DQUOTE] ++ lit "text-sm animate-bounce" ++ [DQUOTE]
  ++ lit ">Generating response........".

Definition showLoading (loading : bool) : list DomEffect :=
  SetContainerHTML [] ::
  (if loading then [SetContainerHTML loading_markup] else []).

Definition cleanElapsedTime : list DomEffect := [SetElapsedText []].

(** The values [Math.floor] returns: an integer, or one of the values
    that are not finite. *)
Inductive JsIntegral : Type :=
| INaN
| IInfinity (negative : bool)
| IFinite (z : Z).

(** [Math.floor(x)] on a binary64 value: a finite [x] is its mantissa
    times a power of two, and shifting the signed mantissa rounds
    towards minus infinity; both zeros give 0. *)
Definition Math_floor (x : float) : JsIntegral :=
  match Prim2SF x with
  | S754_nan => INaN
  | S754_infinity negative => IInfinity negative
  | S754_zero _ => IFinite 0
  | S754_finite negative m e =>
      IFinite (Z.shiftl (if negative then Z.neg m else Z.pos m) e)
  end.

(** Number::toString on such a value (for an integer of absolute value
    below 1e21, where JavaScript prints plain decimal digits). *)
Definition Number_toString (n : JsIntegral) : jsstring :=
  match n with
  | INaN => lit "NaN"
  | IInfinity false => lit "Infinity"
  | IInfinity true => lit "-Infinity"
  | IFinite z => of_integer z
  end.

(** [Math.floor(endTime - startTime)], the subtraction being the one of
    binary64 numbers. *)
Definition elapsed_ms (startTime endTime : float) : JsIntegral :=
  Math_floor (PrimFloat.sub endTime startTime).

(** [`Time taken before first response is displayed: "${elapsed}ms"`] *)
Definition elapsed_message (elapsed : JsIntegral) : jsstring :=
  lit "Time taken before first response is displayed: "
  ++ [DQUOTE] ++ Number_toString elapsed ++ lit "ms" ++ [DQUOTE].

Definition displayElapsedTime (startTime endTime : float) : list DomEffect :=
  let elapsed := elapsed_ms startTime endTime in
  [SetElapsedText (elapsed_message elapsed)].

(** The variables the callbacks of one submit close over. *)
Record Session : Type := mkSession {
  timeStart : float;
  accumulatedText : jsstring
}.

(** The [submit] listener of [stream-form]; [now] is what
    [performance.now()] returns when it runs. *)
Definition submit_stream (now : float) (query : jsstring) : Session * list DomEffect :=
  (mkSession now [],
   showLoading true ++ cleanElapsedTime ++ [NewEventSource query]).

(** [eventSource.onmessage]; [now] is the clock when the event is
    dispatched, [data] is [event.data]. *)
Definition onmessage (s : Session) (now : float) (data : jsstring)
  : Session * list DomEffect :=
  let first :=
    if strict_eq (accumulatedText s) []
    then displayElapsedTime (timeStart s) now ++ showLoading false
    else [] in
  let accumulatedText' := accumulatedText s ++ data in
  let cleanedText := cleanText accumulatedText' in
  (mkSession (timeStart s) accumulatedText',
   first ++ [SetContainerHTML cleanedText]).

(** [eventSource.onerror] *)
Definition onerror (s : Session) : Session * list DomEffect :=
  (s, [CloseEventSource; LogError (lit "Stream connection error")]).

(** The [message] events of a session, in arrival order, each with its
    arrival time. *)
Fixpoint deliver (s : Session) (events : list (float * jsstring))
  : Session * list DomEffect :=
  match events with
  | [] => (s, [])
  | (now, data) :: events' =>
      let (s1, out1) := onmessage s now data in
      let (s2, out2) := deliver s1 events' in
      (s2, out1 ++ out2)
  end.

(** One whole session: submit at [t0], then the events. *)
Definition run_session (t0 : float) (query : jsstring)
           (events : list (float * jsstring))
  : Session * list DomEffect :=
  let (s0, out0) := submit_stream t0 query in
  let (s, out) := deliver s0 events in
  (s, out0 ++ out).

(** The events that find the buffer empty when they arrive: those up to
    and including the first one whose data is not empty. *)
Fixpoint until_first_text (events : list (float * jsstring))
  : list (float * jsstring) :=
  match events with
  | [] => []
  | ev :: events' =>
      if is_empty (snd ev) then ev :: until_first_text events' else [ev]
  end.

(** The elapsed-time texts a log shows, in order (the clearing
    assignment of [cleanElapsedTime] included). *)
Fixpoint elapsed_texts (log : list DomEffect) : list jsstring :=
  match log with
  | [] => []
  | SetElapsedText text :: log' => text :: elapsed_texts log'
  | _ :: log' => elapsed_texts log'
  end.

(** What [elapsedTimeText.innerText] holds after a log, starting from
    [init]. *)
Definition elapsed_innerText (init : jsstring) (log : list DomEffect) : jsstring :=
  last (elapsed_texts log) init.

Definition starts_with_quote (text : jsstring) : bool :=
  match text with
  | c :: _ => (c =? DQUOTE)%N
  | [] => false
  end.

Definition ends_with_quote (text : jsstring) : bool :=
  (last text 0 =? DQUOTE)%N.

Fixpoint has_quote_pair (text : jsstring) : bool :=
  match text with
  | [] => false
  | c :: rest =>
      match rest with
      | d :: _ => (c =? DQUOTE)%N && (d =? DQUOTE)%N || has_quote_pair rest
      | [] => false
      end
  end.

(** The first code unit, if there is one, is not white space. *)
Definition head_kept (text : jsstring) : bool :=
  match text with
  | [] => true
  | c :: _ => negb (is_white_space c)
  end.

(** The last code unit, if there is one, is not white space. *)
Definition last_kept (text : jsstring) : bool :=
  match text with
  | [] => true
  | _ :: _ => negb (is_white_space (last text 0%N))
  end.

End Client.

(* ================================================================== *)
(** ** JSON decoding of a string literal

    Nothing in [chat.js] decodes JSON.  The decoder is what the words
    JSON-decoded of the specification denote ([JSON.parse] on the text of
    one string literal); it is the reference the client's buffer is
    compared with. *)

Module JSONDecode.

Definition hex_value (c : N) : option N :=
  if ((48 <=? c) && (c <=? 57))%N then Some (c - 48)%N
  else if ((97 <=? c) && (c <=? 102))%N then Some (c - 87)%N
  else if ((65 <=? c) && (c <=? 70))%N then Some (c - 55)%N
  else None.

Definition hex4 (h1 h2 h3 h4 : N) : option N :=
  match hex_value h1, hex_value h2, hex_value h3, hex_value h4 with
  | Some a, Some b, Some c, Some d => Some (4096 * a + 256 * b + 16 * c + d)%N
  | _, _, _, _ => None
  end.

Definition unescape (e : N) : option N :=
  match e with
  | 98%N => Some 8%N
  | 116%N => Some 9%N
  | 110%N => Some 10%N
  | 102%N => Some 12%N
  | 114%N => Some 13%N
  | 34%N => Some 34%N
  | 47%N => Some 47%N
  | 92%N => Some 92%N
  | _ => None
  end.

Definition cons_opt (c : N) (r : option jsstring) : option jsstring :=
  match r with
  | Some s => Some (c :: s)
  | None => None
  end.

(** The characters after the opening quote, up to the closing quote,
    which has to end the text. *)
Fixpoint unquote_body (s : jsstring) : option jsstring :=
  match s with
  | [] => None
  | c :: rest =>
      if (c =? DQUOTE)%N then
        match rest with [] => Some [] | _ :: _ => None end
      else if (c =? BACKSLASH)%N then
        match rest with
        | [] => None
        | e :: rest1 =>
            if (e =? 117)%N then
              match rest1 with
              | h1 :: h2 :: h3 :: h4 :: rest2 =>
                  match hex4 h1 h2 h3 h4 with
                  | Some u => cons_opt u (unquote_body rest2)
                  | None => None
                  end
              | _ => None
              end
            else
              match unescape e with
              | Some u => cons_opt u (unquote_body rest1)
              | None => None
              end
        end
      else if (c <? 32)%N then None
      else cons_opt c (unquote_body rest)
  end.

Definition parse_string (text : jsstring) : option jsstring :=
  match text with
  | c :: rest => if (c =? DQUOTE)%N then unquote_body rest else None
  | [] => None
  end.

(** The buffer the specification describes: every payload decoded, the
    decoded texts appended in order. *)
Fixpoint decoded_concat (payloads : list jsstring) : option jsstring :=
  match payloads with
  | [] => Some []
  | p :: payloads' =>
      match parse_string p, decoded_concat payloads' with
      | Some s, Some r => Some (s ++ r)
      | _, _ => None
      end
  end.

End JSONDecode.

(* ================================================================== *)
(** ** Concrete producers, requests and buffers used in the examples *)

Module Examples.

Import Server.

Definition a_request : Request := mkRequest (VString (lit "hi")).

Definition an_error : JsError := lit "connect ECONNREFUSED".

(** A producer with the given stream, whose single-shot call fails. *)
Definition llm_streaming (s : Completion (AsyncSeq Message)) : ChatOpenAI :=
  mkLLM (fun _ => s) (fun _ => Thrown an_error).

(** A producer with the given single-shot answer. *)
Definition llm_answering (r : Completion Message) : ChatOpenAI :=
  mkLLM (fun _ => Thrown an_error) (fun _ => r).

(** The chunks with contents a, empty, b, no content, c. *)
Definition mixed_chunks : list Message :=
  [ fragment (lit "a"); fragment []; fragment (lit "b");
    mkMessage None; fragment (lit "c") ].

(** The raw joined buffer of the payloads of Hel, lo, wor and ld, each
    between its own quotes. *)
Definition hello_raw : jsstring :=
  [DQUOTE] ++ lit "Hel" ++ [DQUOTE; DQUOTE] ++ lit "lo, wor"
  ++ [DQUOTE; DQUOTE] ++ lit "ld" ++ [DQUOTE].

(** The payload of the fragment a: quote, a, quote. *)
Definition payload_a : jsstring := [DQUOTE; 97%N; DQUOTE].
Definition payload_b : jsstring := [DQUOTE; 98%N; DQUOTE].

(** Two quotes followed by a. *)
Definition quote_quote_a : jsstring := [DQUOTE; DQUOTE; 97%N].

End Examples.

(* ================================================================== *)
(** ** The rest of the page: the [normal-form] handler and what the
    page shows *)

Module Page.

Import Server Client.

(** The texts assigned to [container.innerHTML] by a log, in order. *)
Fixpoint container_texts (log : list DomEffect) : list jsstring :=
  match log with
  | [] => []
  | SetContainerHTML html :: log' => html :: container_texts log'
  | _ :: log' => container_texts log'
  end.

(** What [container.innerHTML] holds after a log, starting from [init]. *)
Definition container_innerHTML (init : jsstring) (log : list DomEffect) : jsstring :=
  last (container_texts log) init.

(** *** [encodeURIComponent] (ECMA-262 Encode with the unreserved set
    of letters, digits and the marks - _ . ! ~ * ' ( ) ) *)











(** *** The body on its way to the page

    [res.send] writes a string as UTF-8, in which a surrogate that is not
    half of a pair has no encoding and goes out as U+FFFD;
    [response.text()] decodes UTF-8 and drops one byte order mark at the
    start. *)







(** *** The [normal-form] handler *)









(** A code unit [JSON.stringify] copies unchanged wherever it stands. *)
Definition is_plain (c : N) : bool :=
  ((32 <=? c) && negb (c =? DQUOTE) && negb (c =? BACKSLASH))%N
  && negb (JSON.is_leading_surrogate c) && negb (JSON.is_trailing_surrogate c).

(** The payload of a fragment: what [event.data] is for its frame. *)
Definition payload (fragment : jsstring) : jsstring :=
  JSON_stringify (VString fragment).

Definition is_console_error (op : Effect) : bool :=
  match op with
  | ConsoleError _ _ => true
  | _ => false
  end.

End Page.

(* ================================================================== *)
(** ** The route handlers from their first statement

    [get_stream] and [get_normal] are the [try] statements of the two
    handlers, run with the producer client and the message that the two
    constructors before the [try] have built.  Here the constructors are
    part of the run. *)

Module Routes.

Import Eff Server.
Local Open Scope eff_scope.

(** [new HumanMessage(query)]: a string becomes the content of the
    message; on [undefined] the constructor reads a property of its
    argument, which raises a TypeError. *)
Definition new_HumanMessage (query : JsValue) : Completion JsValue :=
  match query with
  | VUndefined => Thrown (lit "TypeError")
  | VString _ => Normal (HumanMessage query)
  end.

(** The handler of [/stream].  [new_ChatOpenAI] is how
    [new ChatOpenAI({...})] ends in the environment of the process (it
    throws when no API key is configured). *)
Definition stream_handler (new_ChatOpenAI : Completion ChatOpenAI)
           (req : Request) : Eff.t unit :=
  llm <- await new_ChatOpenAI ;;
  await (new_HumanMessage (query req)) ;;
  get_stream llm req.

(** The handler of [/normal]. *)
Definition normal_handler (new_ChatOpenAI : Completion ChatOpenAI)
           (req : Request) : Eff.t unit :=
  llm <- await new_ChatOpenAI ;;
  await (new_HumanMessage (query req)) ;;
  get_normal llm req.

End Routes.

(* ================================================================== *)
(** * Properties *)

Import Eff Server Client Examples Page Routes.

(** ** Strings *)

Lemma is_empty_true (s : jsstring) : is_empty s = true <-> s = [].
Proof. destruct s; simpl; split; congruence. Qed.

Lemma is_empty_false (s : jsstring) : is_empty s = false <-> s <> [].
Proof. destruct s; simpl; split; congruence. Qed.

Lemma strict_eq_spec (s1 s2 : jsstring) : strict_eq s1 s2 = true <-> s1 = s2.
Proof.
  revert s2; induction s1 as [|c t IH]; intros [|d u]; simpl;
    try (split; congruence).
  rewrite andb_true_iff, N.eqb_eq, IH. split.
  - intros [-> ->]; reflexivity.
  - intros E; injection E; auto.
Qed.

Lemma strict_eq_empty (s : jsstring) : strict_eq s [] = is_empty s.
Proof. destruct s; reflexivity. Qed.

(** ** The drain loop of the stream route *)

Lemma bind_emit (op : Effect) (B : Type) (k : unit -> Eff.t B) :
  bind (emit op) k = (op :: trace (k tt), completion (k tt)).
Proof. unfold bind, emit, trace, completion. destruct (k tt); reflexivity. Qed.

Lemma bind_ret (A B : Type) (a : A) (k : A -> Eff.t B) : bind (ret a) k = k a.
Proof. unfold bind, ret. destruct (k a); reflexivity. Qed.

Lemma eff_eta (A : Type) (m : Eff.t A) : m = (trace m, completion m).
Proof. destruct m; reflexivity. Qed.

(** Draining chunks writes the frames of the kept contents, in order,
    and goes on with the rest of the sequence. *)
Lemma for_await_yields (chunks : list Message) (fin : AsyncSeq Message) :
  for_await (yields chunks fin) forward_chunk
  = (write_frames (kept_contents chunks) ++ trace (for_await fin forward_chunk),
     completion (for_await fin forward_chunk)).
Proof.
  induction chunks as [|chunk chunks IH]; cbn [yields for_await].
  - apply eff_eta.
  - unfold kept_contents in *. cbn [List.map filter].
    unfold forward_chunk at 1.
    destruct (falsy (content chunk)); cbn [negb].
    + rewrite bind_ret. exact IH.
    + rewrite bind_emit, IH. reflexivity.
Qed.

(** Every sequence is some chunks followed by completion or by failure. *)
Lemma async_seq_shape (A : Type) (s : AsyncSeq A) :
  exists l, s = yields l Done \/ exists e, s = yields l (Fail e).
Proof.
  induction s as [|e|a rest [l [H|[e H]]]].
  - exists []. left; reflexivity.
  - exists []. right; exists e; reflexivity.
  - exists (a :: l). left. simpl. congruence.
  - exists (a :: l). right. exists e. simpl. congruence.
Qed.

Lemma get_stream_done llm req chunks :
  stream llm [HumanMessage (query req)] = Normal (yields chunks Done) ->
  get_stream llm req
  = (set_sse_headers ++ write_frames (kept_contents chunks) ++ [ResEnd], Normal tt).
Proof.
  intros H. unfold get_stream. rewrite H.
  unfold await, try_catch. unfold bind at 1.
  rewrite !bind_emit. simpl.
  rewrite for_await_yields. simpl.
  rewrite app_nil_r. reflexivity.
Qed.

Lemma get_stream_fail llm req chunks e :
  stream llm [HumanMessage (query req)] = Normal (yields chunks (Fail e)) ->
  get_stream llm req
  = (set_sse_headers ++ write_frames (kept_contents chunks)
       ++ [ConsoleError (lit "streaming error:") e;
           ResWrite stream_error_notice; ResEnd],
     Normal tt).
Proof.
  intros H. unfold get_stream. rewrite H.
  unfold await, try_catch. unfold bind at 1.
  rewrite !bind_emit. simpl.
  rewrite for_await_yields. simpl.
  rewrite app_nil_r. reflexivity.
Qed.

Lemma get_stream_rejected llm req e :
  stream llm [HumanMessage (query req)] = Thrown e ->
  get_stream llm req
  = ([ConsoleError (lit "streaming error:") e;
      ResWrite stream_error_notice; ResEnd],
     Normal tt).
Proof.
  intros H. unfold get_stream. rewrite H. reflexivity.
Qed.

Lemma kept_contents_fragments (fs : list jsstring) :
  Forall (fun f => f <> []) fs ->
  kept_contents (List.map fragment fs) = List.map VString fs.
Proof.
  unfold kept_contents. induction 1 as [|f fs Hf _ IH]; simpl; [reflexivity|].
  destruct f; [congruence|]. simpl. f_equal. exact IH.
Qed.

Lemma writes_app (tr1 tr2 : list Effect) :
  writes (tr1 ++ tr2) = writes tr1 ++ writes tr2.
Proof.
  induction tr1 as [|op tr1 IH]; simpl; [reflexivity|].
  destruct op; simpl; rewrite IH; reflexivity.
Qed.

Lemma writes_write_frames (cs : list JsValue) :
  writes (write_frames cs) = List.map frame cs.
Proof. induction cs; simpl; congruence. Qed.

Lemma response_of_app (tr1 tr2 : list Effect) :
  response_of (tr1 ++ tr2) = fold_left apply_effect tr2 (response_of tr1).
Proof. unfold response_of. apply fold_left_app. Qed.

Lemma statusCode_fold (tr : list Effect) (r : Response) :
  (forall code, ~ In (ResStatus code) tr) ->
  statusCode (fold_left apply_effect tr r) = statusCode r.
Proof.
  revert r; induction tr as [|op tr IH]; intros r H; simpl; [reflexivity|].
  rewrite IH.
  - destruct op; simpl; try reflexivity.
    exfalso. apply (H code). left; reflexivity.
  - intros code Hin. apply (H code). right; exact Hin.
Qed.

Lemma sentHeaders_write_frames (cs : list JsValue) (r : Response) :
  sentHeaders (fold_left apply_effect (write_frames cs) r)
  = match cs with [] => sentHeaders r | _ :: _ => flush_headers r end.
Proof.
  revert r; induction cs as [|c cs IH]; intros r; simpl; [reflexivity|].
  rewrite IH. destruct cs; simpl; [reflexivity|].
  unfold flush_headers; simpl. unfold flush_headers.
  destruct (sentHeaders r); reflexivity.
Qed.

Lemma body_fold (tr : list Effect) (r : Response) :
  (forall v, ~ In (ResSend v) tr) ->
  body (fold_left apply_effect tr r) = body r ++ writes tr.
Proof.
  revert r; induction tr as [|op tr IH]; intros r H; simpl.
  - now rewrite app_nil_r.
  - assert (H' : forall v, ~ In (ResSend v) tr)
      by (intros v Hin; apply (H v); right; exact Hin).
    destruct op; rewrite (IH _ H'); simpl; try reflexivity.
    + now rewrite <- app_assoc.
    + exfalso. apply (H body0). left; reflexivity.
Qed.

Lemma ended_by_ResEnd (pre : list Effect) :
  writableEnded (response_of (pre ++ [ResEnd])) = true.
Proof. rewrite response_of_app. reflexivity. Qed.

Lemma map_write_frames (fs : list jsstring) :
  write_frames (List.map VString fs)
  = List.map ResWrite
      (List.map (fun f => lit "data: " ++ JSON.QuoteJSONString f ++ [LF; LF]) fs).
Proof.
  unfold write_frames. rewrite !map_map. reflexivity.
Qed.

Lemma writes_map_ResWrite (ds : list jsstring) :
  writes (List.map ResWrite ds) = ds.
Proof. induction ds; simpl; congruence. Qed.

(** ** The stream route *)

(** C1: when the producer yields the non-empty fragments [fs] and then
    completes, the stream route sets the three headers, writes exactly one
    frame per fragment, each [data: ] followed by the JSON encoding of the
    fragment and two line feeds, in the order of the fragments, and then
    ends the response; with no fragment nothing is written and the
    response is still ended. *)
Theorem C1_clean_closure llm req (fs : list jsstring) :
  Forall (fun f => f <> []) fs ->
  stream llm [HumanMessage (query req)]
    = Normal (yields (List.map fragment fs) Done) ->
  let tr := trace (get_stream llm req) in
  let frames :=
    List.map (fun f => lit "data: " ++ JSON.QuoteJSONString f ++ [LF; LF]) fs in
  tr = set_sse_headers ++ List.map ResWrite frames ++ [ResEnd]
  /\ writes tr = frames
  /\ List.length (writes tr) = List.length fs
  /\ body (response_of tr) = frames
  /\ writableEnded (response_of tr) = true
  /\ completion (get_stream llm req) = Normal tt.
Proof.
  intros Hfs Hstream tr frames.
  assert (Htr : tr = set_sse_headers ++ List.map ResWrite frames ++ [ResEnd]).
  { unfold tr. rewrite (get_stream_done _ _ _ Hstream).
    rewrite (kept_contents_fragments fs Hfs), map_write_frames. reflexivity. }
  assert (Hw : writes tr = frames).
  { rewrite Htr, !writes_app, writes_map_ResWrite. simpl. apply app_nil_r. }
  split; [exact Htr|]. split; [exact Hw|]. split; [|split; [|split]].
  - rewrite Hw. unfold frames. apply length_map.
  - unfold response_of. rewrite body_fold; [exact Hw|].
    intros v. rewrite Htr. intros Hin.
    apply in_app_or in Hin as [Hin|Hin].
    + simpl in Hin. decompose [or] Hin; try discriminate; contradiction.
    + apply in_app_or in Hin as [Hin|Hin].
      * apply in_map_iff in Hin as [d [Hd _]]. discriminate.
      * simpl in Hin. destruct Hin as [Hin|[]]. discriminate.
  - rewrite Htr, app_assoc. apply ended_by_ResEnd.
  - rewrite (get_stream_done _ _ _ Hstream). reflexivity.
Qed.

Lemma C1_clean_closure_witness :
  writes (trace (get_stream
            (llm_streaming (Normal (yields (List.map fragment [lit "a"; lit "b"]) Done)))
            a_request))
  = [ lit "data: " ++ payload_a ++ [LF; LF]; lit "data: " ++ payload_b ++ [LF; LF] ].
Proof.
  apply (C1_clean_closure
           (llm_streaming (Normal (yields (List.map fragment [lit "a"; lit "b"]) Done)))
           a_request [lit "a"; lit "b"]).
  - repeat constructor; discriminate.
  - reflexivity.
Defined.

(** C2: when the producer fails after yielding the non-empty fragments
    [fs] (the sequence raises after them, or, with no fragment, the call
    that opens the stream is rejected), the stream route writes the frames
    of [fs] in order, then exactly one diagnostic frame, the plain text
    [data: an error occurred while streaming response.] with no line feed
    after it, and then ends the response; the error does not leave the
    handler. *)
Theorem C2_error_closure llm req (fs : list jsstring) (e : JsError) :
  Forall (fun f => f <> []) fs ->
  fails_after llm req fs e ->
  let tr := trace (get_stream llm req) in
  let frames :=
    List.map (fun f => lit "data: " ++ JSON.QuoteJSONString f ++ [LF; LF]) fs in
  (exists hs,
      forallb is_set_header hs = true
      /\ tr = hs ++ List.map ResWrite frames
                ++ [ConsoleError (lit "streaming error:") e;
                    ResWrite stream_error_notice; ResEnd])
  /\ writes tr = frames ++ [stream_error_notice]
  /\ stream_error_notice = lit "data: an error occurred while streaming response."
  /\ ~ In LF stream_error_notice
  /\ writableEnded (response_of tr) = true
  /\ completion (get_stream llm req) = Normal tt.
Proof.
  intros Hfs Hfail tr frames.
  assert (Htr : exists hs,
             forallb is_set_header hs = true
             /\ tr = hs ++ List.map ResWrite frames
                       ++ [ConsoleError (lit "streaming error:") e;
                           ResWrite stream_error_notice; ResEnd]
             /\ completion (get_stream llm req) = Normal tt).
  { destruct Hfail as [H|[-> H]].
    - exists set_sse_headers. split; [reflexivity|]. unfold tr.
      rewrite (get_stream_fail _ _ _ _ H).
      rewrite (kept_contents_fragments fs Hfs), map_write_frames.
      split; reflexivity.
    - exists []. split; [reflexivity|]. unfold tr.
      rewrite (get_stream_rejected _ _ _ H). split; reflexivity. }
  destruct Htr as [hs [Hhs [Htr Hc]]].
  split; [exists hs; split; assumption|].
  split; [|split; [reflexivity|split; [|split; [|exact Hc]]]].
  - rewrite Htr, !writes_app, writes_map_ResWrite.
    replace (writes hs) with (@nil jsstring); [reflexivity|].
    clear Htr. induction hs as [|op hs IH]; [reflexivity|].
    simpl in Hhs. apply andb_true_iff in Hhs as [Hop Hhs].
    destruct op; try discriminate. simpl. auto.
  - vm_compute. intros H. decompose [or] H; try discriminate; assumption.
  - rewrite Htr.
    change [ConsoleError (lit "streaming error:") e;
            ResWrite stream_error_notice; ResEnd]
      with ([ConsoleError (lit "streaming error:") e;
             ResWrite stream_error_notice] ++ [ResEnd]).
    rewrite !app_assoc. apply ended_by_ResEnd.
Qed.

Lemma C2_error_closure_witness :
  writes (trace (get_stream
            (llm_streaming (Normal (yields (List.map fragment [lit "a"]) (Fail an_error))))
            a_request))
  = [ lit "data: " ++ payload_a ++ [LF; LF] ] ++ [stream_error_notice].
Proof.
  apply (C2_error_closure
           (llm_streaming (Normal (yields (List.map fragment [lit "a"]) (Fail an_error))))
           a_request [lit "a"] an_error).
  - repeat constructor; discriminate.
  - left. reflexivity.
Defined.

(** The three framing headers have gone out ahead of the body on every
    run in which the call that opens the stream succeeds. *)
Lemma framing_headers_sent_when_opened llm req s :
  stream llm [HumanMessage (query req)] = Normal s ->
  framing_headers_sent (response_of (trace (get_stream llm req))) = true.
Proof.
  intros H.
  destruct (async_seq_shape Message s) as [chunks [->|[e ->]]].
  - rewrite (get_stream_done _ _ _ H). unfold trace, fst.
    rewrite response_of_app, fold_left_app. unfold framing_headers_sent.
    simpl fold_left at 1.
    unfold flush_headers. rewrite sentHeaders_write_frames.
    destruct (kept_contents chunks); reflexivity.
  - rewrite (get_stream_fail _ _ _ _ H). unfold trace, fst.
    rewrite response_of_app, fold_left_app. unfold framing_headers_sent.
    simpl fold_left at 1.
    unfold flush_headers. rewrite sentHeaders_write_frames.
    destruct (kept_contents chunks); reflexivity.
Qed.

(** C4, at the input on which the code departs from it: when the call
    [llm.stream] is rejected, the handler writes the diagnostic body and
    ends the response without having set any of the three framing
    headers, so the body goes out with no header at all. *)
Theorem C4_headers_missing_when_stream_call_rejected :
  let run := get_stream (llm_streaming (Thrown an_error)) a_request in
  trace run
  = [ConsoleError (lit "streaming error:") an_error;
     ResWrite stream_error_notice; ResEnd]
  /\ body (response_of (trace run)) = [stream_error_notice]
  /\ sentHeaders (response_of (trace run)) = Some []
  /\ framing_headers_sent (response_of (trace run)) = false.
Proof. repeat split. Qed.

(** C5: chunks whose content is the empty string or is missing are
    skipped: the frames written are those of the remaining contents, in
    order, whether the sequence then completes or fails; the chunks
    a, empty, b, no content, c give exactly the three frames of a, b
    and c. *)
Theorem C5_empty_fragments_skipped :
  (forall llm req chunks,
      stream llm [HumanMessage (query req)] = Normal (yields chunks Done) ->
      writes (trace (get_stream llm req)) = List.map frame (kept_contents chunks))
  /\ (forall llm req chunks e,
      stream llm [HumanMessage (query req)] = Normal (yields chunks (Fail e)) ->
      writes (trace (get_stream llm req))
      = List.map frame (kept_contents chunks) ++ [stream_error_notice])
  /\ (forall chunks v,
      In v (kept_contents chunks) <->
      In v (List.map content chunks) /\ v <> VUndefined /\ v <> VString [])
  /\ writes (trace (get_stream (llm_streaming (Normal (yields mixed_chunks Done)))
                               a_request))
     = [ frame (VString (lit "a")); frame (VString (lit "b"));
         frame (VString (lit "c")) ].
Proof.
  split; [|split; [|split]].
  - intros llm req chunks H. rewrite (get_stream_done _ _ _ H).
    unfold trace, fst. rewrite !writes_app, writes_write_frames.
    simpl. apply app_nil_r.
  - intros llm req chunks e H. rewrite (get_stream_fail _ _ _ _ H).
    unfold trace, fst. rewrite !writes_app, writes_write_frames.
    reflexivity.
  - intros chunks v. unfold kept_contents. rewrite filter_In.
    split; intros [Hin Hv]; (split; [exact Hin|]).
    + destruct v as [|[|c s]]; simpl in Hv; try discriminate.
      split; discriminate.
    + destruct v as [|[|c s]]; simpl; try reflexivity.
      * destruct Hv as [Hv _]. congruence.
      * destruct Hv as [_ Hv]. congruence.
  - reflexivity.
Qed.

Lemma C5_empty_fragments_skipped_witness :
  writes (trace (get_stream
            (llm_streaming (Normal (yields [fragment []; fragment (lit "b")] Done)))
            a_request))
  = [ frame (VString (lit "b")) ].
Proof.
  apply (proj1 C5_empty_fragments_skipped
           (llm_streaming (Normal (yields [fragment []; fragment (lit "b")] Done)))
           a_request [fragment []; fragment (lit "b")]).
  reflexivity.
Defined.

(** ** The single-shot route *)

Lemma get_normal_trace_no_status llm req code :
  ~ In (ResStatus code) (trace (get_normal llm req)).
Proof.
  unfold get_normal. destruct (invoke llm [HumanMessage (query req)]) as [m|e];
    simpl; intros H; decompose [or] H; try discriminate; assumption.
Qed.

(** C9: when the producer's single-shot call fails, the reference route
    answers with the plain-text diagnostic body and the error does not
    leave the handler; the status of the response is 200 on every run,
    failed or not. *)
Theorem C9_normal_failure_body_and_status llm req :
  (forall e,
      invoke llm [HumanMessage (query req)] = Thrown e ->
      trace (get_normal llm req)
      = [ConsoleError (lit "Error invoking LLM:") e;
         ResSend (VString (lit "An error occurred while generating the summary."))]
      /\ body (response_of (trace (get_normal llm req)))
         = [lit "An error occurred while generating the summary."]
      /\ writableEnded (response_of (trace (get_normal llm req))) = true
      /\ completion (get_normal llm req) = Normal tt)
  /\ statusCode (response_of (trace (get_normal llm req))) = 200%Z.
Proof.
  split.
  - intros e H. unfold get_normal. rewrite H. repeat split.
  - unfold response_of. rewrite statusCode_fold; [reflexivity|].
    intros code. apply get_normal_trace_no_status.
Qed.

Lemma C9_normal_failure_body_and_status_witness :
  body (response_of (trace (get_normal (llm_answering (Thrown an_error)) a_request)))
  = [lit "An error occurred while generating the summary."].
Proof.
  apply (proj1 (C9_normal_failure_body_and_status
                  (llm_answering (Thrown an_error)) a_request) an_error).
  reflexivity.
Defined.

(** C10: when the single-shot call succeeds with a response that has no
    [content] property, the reference route sends the fixed body
    [No answer was generated.], ends the response normally and logs no
    error. *)
Theorem C10_normal_fallback_body llm req :
  invoke llm [HumanMessage (query req)] = Normal (mkMessage None) ->
  trace (get_normal llm req) = [ResSend (VString (lit "No answer was generated."))]
  /\ body (response_of (trace (get_normal llm req)))
     = [lit "No answer was generated."]
  /\ writableEnded (response_of (trace (get_normal llm req))) = true
  /\ statusCode (response_of (trace (get_normal llm req))) = 200%Z
  /\ completion (get_normal llm req) = Normal tt.
Proof.
  intros H. unfold get_normal. rewrite H. repeat split.
Qed.

Lemma C10_normal_fallback_body_witness :
  body (response_of (trace (get_normal (llm_answering (Normal (mkMessage None)))
                                       a_request)))
  = [lit "No answer was generated."].
Proof.
  apply (C10_normal_fallback_body (llm_answering (Normal (mkMessage None))) a_request).
  reflexivity.
Defined.

(** ** [cleanText] *)

(** Induction on lists two elements at a time, the way the global
    replacement consumes its input. *)
Lemma list_pair_ind (A : Type) (P : list A -> Prop) :
  P [] ->
  (forall a, P [a]) ->
  (forall a b l, P l -> P (b :: l) -> P (a :: b :: l)) ->
  forall l, P l.
Proof.
  intros H0 H1 H2 l.
  assert (H : P l /\ forall a, P (a :: l)).
  { induction l as [|b l [IHl IHbl]].
    - split; [exact H0 | exact H1].
    - split; [apply IHbl|]. intros a. apply H2; [exact IHl | apply IHbl]. }
  exact (proj1 H).
Qed.

Lemma replace_leading_quote_spec (text : jsstring) :
  replace_leading_quote text = if starts_with_quote text then tl text else text.
Proof. destruct text as [|c rest]; simpl; [reflexivity|]. destruct (c =? DQUOTE)%N; reflexivity. Qed.

Lemma replace_leading_quote_length (text : jsstring) :
  List.length (replace_leading_quote text) <= List.length text.
Proof.
  destruct text as [|c rest]; simpl; [lia|].
  destruct (c =? DQUOTE)%N; simpl; lia.
Qed.

Lemma replace_leading_quote_shorter (text : jsstring) :
  starts_with_quote text = true ->
  List.length (replace_leading_quote text) < List.length text.
Proof.
  destruct text as [|c rest]; simpl; [discriminate|].
  intros ->. simpl. lia.
Qed.

Lemma replace_quote_pairs_cons (c : N) (rest : jsstring) :
  replace_quote_pairs (c :: rest)
  = if (c =? DQUOTE)%N && starts_with_quote rest
    then replace_quote_pairs (tl rest)
    else c :: replace_quote_pairs rest.
Proof.
  destruct rest as [|d rest']; simpl.
  - now rewrite andb_false_r.
  - reflexivity.
Qed.

Lemma has_quote_pair_cons (c : N) (rest : jsstring) :
  has_quote_pair (c :: rest)
  = (c =? DQUOTE)%N && starts_with_quote rest || has_quote_pair rest.
Proof.
  destruct rest as [|d rest']; simpl.
  - now rewrite andb_false_r.
  - reflexivity.
Qed.

Lemma replace_quote_pairs_head (text : jsstring) :
  starts_with_quote text = false ->
  starts_with_quote (replace_quote_pairs text) = false.
Proof.
  destruct text as [|c rest]; [reflexivity|].
  intros H. simpl in H. rewrite replace_quote_pairs_cons, H. simpl. exact H.
Qed.

(** After the global replacement no two adjacent quotes are left. *)
Lemma replace_quote_pairs_no_pair (text : jsstring) :
  has_quote_pair (replace_quote_pairs text) = false.
Proof.
  induction text as [| a | a b l IHl IHbl] using list_pair_ind;
    try reflexivity.
  rewrite replace_quote_pairs_cons.
  destruct ((a =? DQUOTE)%N && starts_with_quote (b :: l)) eqn:E.
  - exact IHl.
  - rewrite has_quote_pair_cons, IHbl, orb_false_r.
    destruct (a =? DQUOTE)%N; [|reflexivity].
    rewrite andb_true_l in E |- *.
    apply replace_quote_pairs_head. exact E.
Qed.

Lemma replace_quote_pairs_fixed (text : jsstring) :
  has_quote_pair text = false -> replace_quote_pairs text = text.
Proof.
  induction text as [|c rest IH]; [reflexivity|].
  rewrite has_quote_pair_cons, replace_quote_pairs_cons.
  intros H. apply orb_false_iff in H as [H1 H2].
  rewrite H1, (IH H2). reflexivity.
Qed.

Lemma replace_quote_pairs_length (text : jsstring) :
  List.length (replace_quote_pairs text) <= List.length text.
Proof.
  induction text as [| a | a b l IHl IHbl] using list_pair_ind;
    try (simpl; lia).
  rewrite replace_quote_pairs_cons.
  destruct ((a =? DQUOTE)%N && starts_with_quote (b :: l)).
  - simpl tl. simpl List.length. lia.
  - simpl List.length in *. lia.
Qed.

Lemma has_quote_pair_app (s1 s2 : jsstring) :
  has_quote_pair (s1 ++ s2) = false ->
  has_quote_pair s1 = false /\ has_quote_pair s2 = false.
Proof.
  induction s1 as [|c s1 IH]; simpl app.
  - intros H; split; [reflexivity | exact H].
  - rewrite !has_quote_pair_cons. intros H.
    apply orb_false_iff in H as [H1 H2].
    destruct (IH H2) as [IH1 IH2]. split; [|exact IH2].
    rewrite IH1, orb_false_r.
    destruct s1 as [|d s1]; [now rewrite andb_false_r | exact H1].
Qed.

Lemma replace_trailing_quote_spec (text : jsstring) :
  replace_trailing_quote text
  = if ends_with_quote text then removelast text else text.
Proof.
  unfold ends_with_quote.
  induction text as [|c rest IH]; [reflexivity|].
  destruct rest as [|d rest'].
  - simpl. destruct (c =? DQUOTE)%N; reflexivity.
  - change (replace_trailing_quote (c :: d :: rest'))
      with (c :: replace_trailing_quote (d :: rest')).
    change (last (c :: d :: rest') 0%N) with (last (d :: rest') 0%N).
    change (removelast (c :: d :: rest')) with (c :: removelast (d :: rest')).
    rewrite IH. destruct (last (d :: rest') 0 =? DQUOTE)%N; reflexivity.
Qed.

(** What the trailing replacement returns is a prefix of its input, the
    rest being the quote it removed, if any. *)
Lemma replace_trailing_quote_prefix (text : jsstring) :
  text = replace_trailing_quote text
         ++ (if ends_with_quote text then [DQUOTE] else []).
Proof.
  rewrite replace_trailing_quote_spec. unfold ends_with_quote.
  destruct (last text 0 =? DQUOTE)%N eqn:E.
  - apply N.eqb_eq in E. rewrite <- E. apply app_removelast_last.
    intros ->. discriminate.
  - now rewrite app_nil_r.
Qed.

Lemma replace_trailing_quote_length (text : jsstring) :
  List.length (replace_trailing_quote text) <= List.length text.
Proof.
  rewrite (replace_trailing_quote_prefix text) at 2.
  rewrite length_app. lia.
Qed.

Lemma replace_trailing_quote_shorter (text : jsstring) :
  ends_with_quote text = true ->
  List.length (replace_trailing_quote text) < List.length text.
Proof.
  intros H. rewrite (replace_trailing_quote_prefix text) at 2.
  rewrite H, length_app. simpl. lia.
Qed.

Lemma trimStart_suffix (text : jsstring) :
  exists pre, text = pre ++ trimStart text /\ forallb is_white_space pre = true.
Proof.
  induction text as [|c rest [pre [IH1 IH2]]].
  - exists []. split; reflexivity.
  - simpl. destruct (is_white_space c) eqn:E.
    + exists (c :: pre). simpl. rewrite E, IH2. split; [congruence|reflexivity].
    + exists []. split; reflexivity.
Qed.

Lemma trimStart_head (text : jsstring) : head_kept (trimStart text) = true.
Proof.
  induction text as [|c rest IH]; [reflexivity|].
  simpl. destruct (is_white_space c) eqn:E; [exact IH|].
  simpl. now rewrite E.
Qed.

Lemma trimStart_fixed (text : jsstring) :
  head_kept text = true -> trimStart text = text.
Proof.
  destruct text as [|c rest]; [reflexivity|]. simpl.
  destruct (is_white_space c); [discriminate|reflexivity].
Qed.

Lemma trimEnd_cons (c : N) (rest : jsstring) :
  trimEnd (c :: rest)
  = if is_empty (trimEnd rest)
    then (if is_white_space c then [] else [c])
    else c :: trimEnd rest.
Proof. simpl. destruct (trimEnd rest); reflexivity. Qed.

Lemma trimEnd_prefix (text : jsstring) :
  exists suf, text = trimEnd text ++ suf /\ forallb is_white_space suf = true.
Proof.
  induction text as [|c rest [suf [IH1 IH2]]].
  - exists []. split; reflexivity.
  - rewrite trimEnd_cons. destruct (trimEnd rest) as [|k kept] eqn:E; simpl.
    + simpl in IH1. subst suf. destruct (is_white_space c) eqn:Ec.
      * exists (c :: rest). simpl. rewrite Ec, IH2. split; reflexivity.
      * exists rest. split; [reflexivity | exact IH2].
    + exists suf. split; [|exact IH2]. simpl in IH1. congruence.
Qed.

Lemma trimEnd_head (text : jsstring) :
  head_kept text = true -> head_kept (trimEnd text) = true.
Proof.
  destruct text as [|c rest]; [reflexivity|]. intros H.
  rewrite trimEnd_cons. destruct (is_empty (trimEnd rest)).
  - destruct (is_white_space c) eqn:E; [reflexivity|].
    simpl. now rewrite E.
  - exact H.
Qed.

Lemma trimEnd_last (text : jsstring) : last_kept (trimEnd text) = true.
Proof.
  induction text as [|c rest IH]; [reflexivity|].
  rewrite trimEnd_cons. destruct (trimEnd rest) as [|k kept]; simpl is_empty; cbv iota.
  - destruct (is_white_space c) eqn:E; [reflexivity|].
    simpl. now rewrite E.
  - exact IH.
Qed.

Lemma trimEnd_idempotent (text : jsstring) :
  trimEnd (trimEnd text) = trimEnd text.
Proof.
  induction text as [|c rest IH]; [reflexivity|].
  rewrite trimEnd_cons. destruct (trimEnd rest) as [|k kept] eqn:E; simpl is_empty; cbv iota.
  - destruct (is_white_space c) eqn:Ec; [reflexivity|].
    simpl. now rewrite Ec.
  - rewrite trimEnd_cons, IH. reflexivity.
Qed.

Lemma trim_idempotent (text : jsstring) : trim (trim text) = trim text.
Proof.
  unfold trim.
  rewrite (trimStart_fixed (trimEnd (trimStart text))).
  - apply trimEnd_idempotent.
  - apply trimEnd_head, trimStart_head.
Qed.

(** [trim] returns its input without a run of white space in front and a
    run of white space behind. *)
Lemma trim_decomposition (text : jsstring) :
  exists pre suf,
    text = pre ++ trim text ++ suf
    /\ forallb is_white_space pre = true
    /\ forallb is_white_space suf = true.
Proof.
  destruct (trimStart_suffix text) as [pre [H1 H2]].
  destruct (trimEnd_prefix (trimStart text)) as [suf [H3 H4]].
  exists pre, suf. unfold trim. rewrite <- H3. auto.
Qed.

Lemma trim_length (text : jsstring) :
  List.length (trim text) <= List.length text.
Proof.
  destruct (trim_decomposition text) as [pre [suf [H _]]].
  rewrite H at 2. rewrite !length_app. lia.
Qed.

Lemma trim_no_pair (text : jsstring) :
  has_quote_pair text = false -> has_quote_pair (trim text) = false.
Proof.
  destruct (trim_decomposition text) as [pre [suf [H _]]].
  intros Hp. rewrite H in Hp.
  apply has_quote_pair_app in Hp as [_ Hp].
  apply has_quote_pair_app in Hp as [Hp _]. exact Hp.
Qed.

Lemma cleanText_no_pair (text : jsstring) :
  has_quote_pair (cleanText text) = false.
Proof.
  unfold cleanText. apply trim_no_pair.
  pose proof (replace_quote_pairs_no_pair (replace_leading_quote text)) as H.
  rewrite (replace_trailing_quote_prefix
             (replace_quote_pairs (replace_leading_quote text))) in H.
  apply has_quote_pair_app in H as [H _]. exact H.
Qed.

Lemma cleanText_length (text : jsstring) :
  List.length (cleanText text) <= List.length text.
Proof.
  unfold cleanText.
  pose proof (trim_length (replace_trailing_quote
                (replace_quote_pairs (replace_leading_quote text)))).
  pose proof (replace_trailing_quote_length
                (replace_quote_pairs (replace_leading_quote text))).
  pose proof (replace_quote_pairs_length (replace_leading_quote text)).
  pose proof (replace_leading_quote_length text).
  lia.
Qed.

(** C6: [cleanText] removes one quote at the start of the buffer, then
    every pair of adjacent quotes (none is left afterwards), then one quote
    at the end, then the white space around the result, in this order; on
    the raw joined buffer quote Hel quote quote lo, wor quote quote ld
    quote it returns exactly Hello, world. *)
Theorem C6_cleanText_stages_and_example :
  (forall text,
      cleanText text
      = trim (replace_trailing_quote (replace_quote_pairs (replace_leading_quote text))))
  /\ (forall text,
      replace_leading_quote text
      = if starts_with_quote text then tl text else text)
  /\ (forall text,
      replace_quote_pairs (DQUOTE :: DQUOTE :: text) = replace_quote_pairs text)
  /\ (forall text, has_quote_pair (replace_quote_pairs text) = false)
  /\ (forall text,
      replace_trailing_quote text
      = if ends_with_quote text then removelast text else text)
  /\ (forall text,
      exists pre suf,
        text = pre ++ trim text ++ suf
        /\ forallb is_white_space pre = true
        /\ forallb is_white_space suf = true
        /\ head_kept (trim text) = true
        /\ last_kept (trim text) = true)
  /\ cleanText hello_raw = lit "Hello, world".
Proof.
  split; [reflexivity|].
  split; [exact replace_leading_quote_spec|].
  split; [reflexivity|].
  split; [exact replace_quote_pairs_no_pair|].
  split; [exact replace_trailing_quote_spec|].
  split; [|reflexivity].
  intros text. destruct (trim_decomposition text) as [pre [suf [H1 [H2 H3]]]].
  exists pre, suf. repeat split; try assumption.
  - unfold trim. apply trimEnd_head, trimStart_head.
  - unfold trim. apply trimEnd_last.
Qed.

(** The cleaned text is a fixed point of [cleanText] exactly when no
    quote is left at either of its ends. *)
Lemma cleanText_fixed_iff (t : jsstring) :
  has_quote_pair t = false ->
  trim t = t ->
  (cleanText t = t <-> starts_with_quote t = false /\ ends_with_quote t = false).
Proof.
  intros Hpair Htrim. split.
  - intros Hfix.
    assert (Hs : starts_with_quote t = false).
    { destruct (starts_with_quote t) eqn:E; [|reflexivity].
      pose proof (replace_leading_quote_shorter t E) as Hlt.
      pose proof (cleanText_length (replace_leading_quote t)) as _.
      assert (List.length (cleanText t) < List.length t); [|rewrite Hfix in *; lia].
      unfold cleanText.
      pose proof (trim_length (replace_trailing_quote
                    (replace_quote_pairs (replace_leading_quote t)))).
      pose proof (replace_trailing_quote_length
                    (replace_quote_pairs (replace_leading_quote t))).
      pose proof (replace_quote_pairs_length (replace_leading_quote t)).
      lia. }
    split; [exact Hs|].
    destruct (ends_with_quote t) eqn:E; [|reflexivity].
    assert (List.length (cleanText t) < List.length t); [|rewrite Hfix in *; lia].
    unfold cleanText. rewrite replace_leading_quote_spec, Hs.
    rewrite (replace_quote_pairs_fixed t Hpair).
    pose proof (trim_length (replace_trailing_quote t)).
    pose proof (replace_trailing_quote_shorter t E). lia.
  - intros [Hs He]. unfold cleanText.
    rewrite replace_leading_quote_spec, Hs.
    rewrite (replace_quote_pairs_fixed t Hpair).
    rewrite replace_trailing_quote_spec, He. exact Htrim.
Qed.

(** C8, as amended: a second application of [cleanText] changes nothing
    exactly when the first result neither starts nor ends with a quote. *)
Theorem C8_cleanText_idempotent_iff (s : jsstring) :
  cleanText (cleanText s) = cleanText s
  <-> starts_with_quote (cleanText s) = false
      /\ ends_with_quote (cleanText s) = false.
Proof.
  apply cleanText_fixed_iff.
  - apply cleanText_no_pair.
  - unfold cleanText. apply trim_idempotent.
Qed.

Lemma C8_cleanText_idempotent_iff_witness :
  cleanText (cleanText hello_raw) = cleanText hello_raw.
Proof.
  apply (proj2 (C8_cleanText_idempotent_iff hello_raw)).
  split; reflexivity.
Defined.

(** C8 as stated fails: two quotes followed by a are cleaned to quote a,
    which is cleaned to a. *)
Lemma C8_cleanText_not_idempotent :
  cleanText quote_quote_a = [DQUOTE; 97%N]
  /\ cleanText (cleanText quote_quote_a) = [97%N]
  /\ cleanText (cleanText quote_quote_a) <> cleanText quote_quote_a.
Proof. repeat split. discriminate. Qed.

(** ** The session of the stream client *)

Lemma deliver_accumulates (s : Session) (events : list (float * jsstring)) :
  accumulatedText (fst (deliver s events))
  = accumulatedText s ++ List.concat (List.map snd events).
Proof.
  revert s; induction events as [|[now data] events IH]; intros s; simpl.
  - now rewrite app_nil_r.
  - specialize (IH (mkSession (timeStart s) (accumulatedText s ++ data))).
    destruct (deliver (mkSession (timeStart s) (accumulatedText s ++ data)) events)
      as [s2 out2].
    simpl in *. rewrite IH. now rewrite app_assoc.
Qed.

(** C3, as amended: after the first [n] message events of a session the
    buffer is the concatenation of their [event.data] exactly as received;
    nothing is decoded. *)
Theorem C3_buffer_is_raw_concatenation
        (t0 : float) (query : jsstring) (events : list (float * jsstring)) (n : nat) :
  accumulatedText (fst (run_session t0 query (firstn n events)))
  = List.concat (List.map snd (firstn n events)).
Proof.
  unfold run_session, submit_stream.
  pose proof (deliver_accumulates (mkSession t0 []) (firstn n events)) as H.
  destruct (deliver (mkSession t0 []) (firstn n events)) as [s out].
  exact H.
Qed.

(** C3 as stated fails: after the one payload quote a quote the buffer
    holds these three code units, while the decoded payload is the single
    code unit a. *)
Lemma C3_buffer_not_decoded :
  JSONDecode.decoded_concat (List.map snd [(1%float, payload_a)]) = Some (lit "a")
  /\ accumulatedText (fst (run_session 0%float [] [(1%float, payload_a)])) = payload_a
  /\ Some (accumulatedText (fst (run_session 0%float [] [(1%float, payload_a)])))
     <> JSONDecode.decoded_concat (List.map snd [(1%float, payload_a)]).
Proof. repeat split. discriminate. Qed.

Lemma elapsed_texts_app (log1 log2 : list DomEffect) :
  elapsed_texts (log1 ++ log2) = elapsed_texts log1 ++ elapsed_texts log2.
Proof.
  induction log1 as [|op log1 IH]; simpl; [reflexivity|].
  destruct op; simpl; rewrite IH; reflexivity.
Qed.

Lemma onmessage_elapsed_texts (s : Session) (now : float) (data : jsstring) :
  elapsed_texts (snd (onmessage s now data))
  = if is_empty (accumulatedText s)
    then [elapsed_message (Math_floor (PrimFloat.sub now (timeStart s)))]
    else [].
Proof.
  unfold onmessage. rewrite strict_eq_empty.
  destruct (is_empty (accumulatedText s)); reflexivity.
Qed.

Lemma deliver_elapsed_texts_later (s : Session) (events : list (float * jsstring)) :
  accumulatedText s <> [] ->
  elapsed_texts (snd (deliver s events)) = [].
Proof.
  revert s; induction events as [|[now data] events IH]; intros s Hs;
    [reflexivity|].
  cbn [deliver].
  pose proof (onmessage_elapsed_texts s now data) as Hm.
  destruct (onmessage s now data) as [s1 out1] eqn:E1.
  assert (Hs1 : accumulatedText s1 <> []).
  { unfold onmessage in E1. injection E1 as <- _. simpl.
    destruct (accumulatedText s); [congruence|discriminate]. }
  specialize (IH s1 Hs1).
  destruct (deliver s1 events) as [s2 out2].
  simpl in *. rewrite elapsed_texts_app, Hm, IH.
  apply is_empty_false in Hs. rewrite Hs. reflexivity.
Qed.

(** While the buffer is empty every arriving event records; the first
    event with text is the last one to do so. *)
Lemma deliver_elapsed_texts (s : Session) (events : list (float * jsstring)) :
  accumulatedText s = [] ->
  elapsed_texts (snd (deliver s events))
  = List.map (fun ev => elapsed_message
                          (Math_floor (PrimFloat.sub (fst ev) (timeStart s))))
             (until_first_text events).
Proof.
  revert s; induction events as [|[now data] events IH]; intros s Hs;
    [reflexivity|].
  cbn [deliver until_first_text snd].
  pose proof (onmessage_elapsed_texts s now data) as Hm.
  destruct (onmessage s now data) as [s1 out1] eqn:E1.
  assert (Hs1 : accumulatedText s1 = data /\ timeStart s1 = timeStart s).
  { unfold onmessage in E1. injection E1 as <- _. simpl.
    rewrite Hs. split; reflexivity. }
  destruct Hs1 as [Hbuf Hstart].
  rewrite Hs in Hm. cbn [is_empty] in Hm.
  destruct data as [|c data].
  - specialize (IH s1 Hbuf).
    destruct (deliver s1 events) as [s2 out2].
    cbn [snd fst is_empty List.map] in *.
    rewrite elapsed_texts_app, Hm, IH, Hstart. reflexivity.
  - pose proof (deliver_elapsed_texts_later s1 events) as Hl.
    rewrite Hbuf in Hl. specialize (Hl ltac:(discriminate)).
    destruct (deliver s1 events) as [s2 out2].
    cbn [snd fst is_empty List.map] in *.
    rewrite elapsed_texts_app, Hm, Hl. reflexivity.
Qed.

Lemma run_session_elapsed_texts
      (t0 : float) (query : jsstring) (events : list (float * jsstring)) :
  elapsed_texts (snd (run_session t0 query events))
  = [] :: List.map (fun ev => elapsed_message
                                (Math_floor (PrimFloat.sub (fst ev) t0)))
                   (until_first_text events).
Proof.
  unfold run_session, submit_stream.
  pose proof (deliver_elapsed_texts (mkSession t0 []) events eq_refl) as H.
  destruct (deliver (mkSession t0 []) events) as [s out].
  cbn [snd timeStart] in *.
  rewrite !elapsed_texts_app, H. reflexivity.
Qed.

(** The model subtracts as the page does: with the submit at the double
    nearest 0.1 and the frame at the double nearest 5.1 the difference
    rounds to 5 and 5 is shown. *)
Lemma elapsed_ms_at_tenths :
  elapsed_ms 0x1.999999999999ap-4%float 0x1.4666666666666p+2%float = IFinite 5.
Proof. reflexivity. Qed.

(** C7, as amended: [onmessage] records the elapsed time exactly when the
    buffer is empty on arrival.  Over a session these are the events up
    to and including the first one that carries text: the first event
    only when it carries text, none on a session without events (the
    text is only cleared).  Each value recorded is [Math.floor] of the
    binary64 difference between the arrival time of the event and the
    time of the submit. *)
Theorem C7_elapsed_time_recorded_once_floored
        (t0 : float) (query : jsstring) (events : list (float * jsstring)) :
  elapsed_texts (snd (run_session t0 query events))
  = [] :: List.map (fun ev => elapsed_message
                                (Math_floor (PrimFloat.sub (fst ev) t0)))
                   (until_first_text events)
  /\ (forall t1 c data rest,
         elapsed_texts (snd (run_session t0 query ((t1, c :: data) :: rest)))
         = [[]; elapsed_message (Math_floor (PrimFloat.sub t1 t0))]
         /\ elapsed_innerText [] (snd (run_session t0 query ((t1, c :: data) :: rest)))
            = elapsed_message (Math_floor (PrimFloat.sub t1 t0)))
  /\ elapsed_texts (snd (run_session t0 query [])) = [[]]
  /\ elapsed_innerText [] (snd (run_session t0 query [])) = []
  /\ (forall s now data,
         elapsed_texts (snd (onmessage s now data))
         = if is_empty (accumulatedText s)
           then [elapsed_message (Math_floor (PrimFloat.sub now (timeStart s)))]
           else []).
Proof.
  split; [apply run_session_elapsed_texts|].
  split; [|split; [reflexivity|split; [reflexivity|exact onmessage_elapsed_texts]]].
  intros t1 c data rest.
  pose proof (run_session_elapsed_texts t0 query ((t1, c :: data) :: rest)) as H.
  cbn [until_first_text snd fst is_empty List.map] in H.
  split; [exact H|].
  unfold elapsed_innerText. rewrite H. reflexivity.
Qed.

(** C7 as stated fails: with the submit at time 0 and the first frame at
    time 1.5 the difference is 1.5 and the value shown is 1. *)
Lemma C7_elapsed_not_the_difference :
  elapsed_texts (snd (run_session 0%float [] [(1.5%float, payload_a)]))
  = [[]; elapsed_message (IFinite 1)]
  /\ elapsed_message (IFinite 1)
     = lit "Time taken before first response is displayed: "
       ++ [DQUOTE] ++ lit "1ms" ++ [DQUOTE]
  /\ PrimFloat.sub 1.5%float 0%float = 1.5%float
  /\ PrimFloat.eqb (PrimFloat.sub 1.5%float 0%float) 1%float = false.
Proof. repeat split. Qed.

(** ** Encoding and decoding agree

    The decoder used as the reference for the buffer undoes
    [JSON.stringify] on every string. *)

Lemma hex_value_digit (n : N) :
  (n < 16)%N -> JSONDecode.hex_value (JSON.hex_digit n) = Some n.
Proof.
  intros Hn. unfold JSON.hex_digit, JSONDecode.hex_value.
  destruct (n <? 10)%N eqn:E.
  - apply N.ltb_lt in E.
    replace ((48 <=? 48 + n) && (48 + n <=? 57))%N with true.
    + f_equal. lia.
    + symmetry. apply andb_true_iff. split; apply N.leb_le; lia.
  - apply N.ltb_ge in E.
    replace ((48 <=? 87 + n) && (87 + n <=? 57))%N with false.
    + replace ((97 <=? 87 + n) && (87 + n <=? 102))%N with true.
      * f_equal. lia.
      * symmetry. apply andb_true_iff. split; apply N.leb_le; lia.
    + symmetry. apply andb_false_iff. right. apply N.leb_gt. lia.
Qed.

Lemma hex4_UnicodeEscape (c : N) (tail : jsstring) :
  (c < 65536)%N ->
  JSONDecode.unquote_body (JSON.UnicodeEscape c ++ tail)
  = JSONDecode.cons_opt c (JSONDecode.unquote_body tail).
Proof.
  intros Hc. unfold JSON.UnicodeEscape.
  cbn [app JSONDecode.unquote_body].
  change (BACKSLASH =? DQUOTE)%N with false.
  change (BACKSLASH =? BACKSLASH)%N with true.
  change (117 =? 117)%N with true. cbv iota.
  unfold JSONDecode.hex4.
  rewrite !hex_value_digit by (apply N.mod_lt; discriminate).
  replace (4096 * ((c / 4096) mod 16) + 256 * ((c / 256) mod 16)
           + 16 * ((c / 16) mod 16) + c mod 16)%N with c; [reflexivity|].
  pose proof (N.div_mod c 16 ltac:(discriminate)) as H1.
  pose proof (N.div_mod (c / 16) 16 ltac:(discriminate)) as H2.
  pose proof (N.div_mod (c / 256) 16 ltac:(discriminate)) as H3.
  replace (c / 16 / 16)%N with (c / 256)%N in H2
    by (rewrite N.Div0.div_div; reflexivity).
  replace (c / 256 / 16)%N with (c / 4096)%N in H3
    by (rewrite N.Div0.div_div; reflexivity).
  assert (H4 : (c / 4096 < 16)%N).
  { apply N.Div0.div_lt_upper_bound. exact Hc. }
  rewrite (N.mod_small (c / 4096) 16 H4).
  lia.
Qed.

Lemma unquote_plain (c : N) (tail : jsstring) :
  (c =? DQUOTE)%N = false -> (c =? BACKSLASH)%N = false -> (c <? 32)%N = false ->
  JSONDecode.unquote_body (c :: tail)
  = JSONDecode.cons_opt c (JSONDecode.unquote_body tail).
Proof.
  intros H1 H2 H3. cbn [JSONDecode.unquote_body]. rewrite H1, H2, H3. reflexivity.
Qed.

Lemma unquote_surrogate (c : N) (tail : jsstring) :
  JSON.is_leading_surrogate c || JSON.is_trailing_surrogate c = true ->
  JSONDecode.unquote_body (c :: tail)
  = JSONDecode.cons_opt c (JSONDecode.unquote_body tail).
Proof.
  unfold JSON.is_leading_surrogate, JSON.is_trailing_surrogate. intros H.
  assert (Hc : (55296 <= c)%N).
  { apply orb_true_iff in H as [H|H]; apply andb_true_iff in H as [H _];
      apply N.leb_le in H; lia. }
  apply unquote_plain.
  - apply N.eqb_neq. unfold DQUOTE. lia.
  - apply N.eqb_neq. unfold BACKSLASH. lia.
  - apply N.ltb_ge. lia.
Qed.

Lemma unquote_quote_unit (c : N) (tail : jsstring) :
  JSONDecode.unquote_body (JSON.quote_unit c ++ tail)
  = JSONDecode.cons_opt c (JSONDecode.unquote_body tail).
Proof.
  unfold JSON.quote_unit, JSON.table_escape.
  repeat match goal with
         | |- context [(c =? ?k)%N] =>
             let E := fresh "E" in
             destruct (c =? k)%N eqn:E;
             [apply N.eqb_eq in E; subst c; reflexivity|]
         end.
  destruct ((c <? 32)%N || JSON.is_leading_surrogate c
            || JSON.is_trailing_surrogate c) eqn:Eu.
  - apply hex4_UnicodeEscape.
    unfold JSON.is_leading_surrogate, JSON.is_trailing_surrogate in Eu.
    apply orb_true_iff in Eu as [Eu|Eu].
    + apply orb_true_iff in Eu as [Eu|Eu].
      * apply N.ltb_lt in Eu. lia.
      * apply andb_true_iff in Eu as [_ Eu]. apply N.leb_le in Eu. lia.
    + apply andb_true_iff in Eu as [_ Eu]. apply N.leb_le in Eu. lia.
  - apply orb_false_iff in Eu as [Eu _]. apply orb_false_iff in Eu as [Eu _].
    apply unquote_plain; assumption.
Qed.

Lemma quote_body_cons2 (a b : N) (l : jsstring) :
  JSON.quote_body (a :: b :: l)
  = if JSON.is_leading_surrogate a && JSON.is_trailing_surrogate b
    then a :: b :: JSON.quote_body l
    else JSON.quote_unit a ++ JSON.quote_body (b :: l).
Proof. reflexivity. Qed.

Lemma unquote_quote_body (s : jsstring) :
  JSONDecode.unquote_body (JSON.quote_body s ++ [DQUOTE]) = Some s.
Proof.
  induction s as [| a | a b l IHl IHbl] using list_pair_ind.
  - reflexivity.
  - change (JSON.quote_body [a]) with (JSON.quote_unit a ++ []).
    rewrite <- app_assoc, unquote_quote_unit. reflexivity.
  - rewrite quote_body_cons2.
    destruct (JSON.is_leading_surrogate a && JSON.is_trailing_surrogate b) eqn:E.
    + apply andb_true_iff in E as [Ea Eb].
      cbn [app].
      rewrite unquote_surrogate by (rewrite Ea; reflexivity).
      rewrite unquote_surrogate by (rewrite Eb; apply orb_true_r).
      rewrite IHl. reflexivity.
    + rewrite <- app_assoc, unquote_quote_unit, IHbl. reflexivity.
Qed.

(** Decoding the JSON encoding of a string gives the string back. *)
Lemma parse_string_QuoteJSONString (s : jsstring) :
  JSONDecode.parse_string (JSON.QuoteJSONString s) = Some s.
Proof.
  unfold JSON.QuoteJSONString, JSONDecode.parse_string.
  change (DQUOTE =? DQUOTE)%N with true. cbv iota.
  apply unquote_quote_body.
Qed.

(** The decoded concatenation of the payloads of fragments is the
    concatenation of the fragments. *)
Lemma decoded_concat_payloads (fs : list jsstring) :
  JSONDecode.decoded_concat (List.map JSON.QuoteJSONString fs)
  = Some (List.concat fs).
Proof.
  induction fs as [|f fs IH]; [reflexivity|].
  cbn [List.map JSONDecode.decoded_concat List.concat].
  rewrite parse_string_QuoteJSONString, IH. reflexivity.
Qed.

(* ================================================================== *)
(** * Further properties of the code *)

(** ** The stream route on every run *)

Lemma not_end_in_headers_and_frames (cs : list JsValue) :
  ~ In ResEnd (set_sse_headers ++ write_frames cs).
Proof.
  intros H. apply in_app_or in H as [H|H].
  - simpl in H. decompose [or] H; try discriminate; assumption.
  - unfold write_frames in H. apply in_map_iff in H as [c [Hc _]]. discriminate.
Qed.

Lemma not_send_in_headers_and_frames (cs : list JsValue) (v : JsValue) :
  ~ In (ResSend v) (set_sse_headers ++ write_frames cs).
Proof.
  intros H. apply in_app_or in H as [H|H].
  - simpl in H. decompose [or] H; try discriminate; assumption.
  - unfold write_frames in H. apply in_map_iff in H as [c [Hc _]]. discriminate.
Qed.

Lemma not_status_in_headers_and_frames (cs : list JsValue) (code : Z) :
  ~ In (ResStatus code) (set_sse_headers ++ write_frames cs).
Proof.
  intros H. apply in_app_or in H as [H|H].
  - simpl in H. decompose [or] H; try discriminate; assumption.
  - unfold write_frames in H. apply in_map_iff in H as [c [Hc _]]. discriminate.
Qed.

(** The log of the stream route has one of three shapes. *)
Lemma get_stream_shapes llm req :
  exists pre,
    get_stream llm req = (pre ++ [ResEnd], Normal tt)
    /\ ~ In ResEnd pre
    /\ (forall v, ~ In (ResSend v) pre)
    /\ (forall code, ~ In (ResStatus code) pre).
Proof.
  destruct (stream llm [HumanMessage (query req)]) as [s|e] eqn:H.
  - destruct (async_seq_shape Message s) as [chunks [->|[e ->]]].
    + exists (set_sse_headers ++ write_frames (kept_contents chunks)).
      rewrite (get_stream_done _ _ _ H), <- app_assoc.
      split; [reflexivity|]. split; [apply not_end_in_headers_and_frames|].
      split; intros x; [apply not_send_in_headers_and_frames
                       |apply not_status_in_headers_and_frames].
    + exists ((set_sse_headers ++ write_frames (kept_contents chunks))
              ++ [ConsoleError (lit "streaming error:") e;
                  ResWrite stream_error_notice]).
      rewrite (get_stream_fail _ _ _ _ H), <- !app_assoc.
      split; [reflexivity|].
      split; [|split]; [|intros x|intros x]; rewrite app_assoc;
        intros Hin; apply in_app_or in Hin as [Hin|Hin];
        try (simpl in Hin; decompose [or] Hin; try discriminate; assumption).
      * exact (not_end_in_headers_and_frames _ Hin).
      * exact (not_send_in_headers_and_frames _ _ Hin).
      * exact (not_status_in_headers_and_frames _ _ Hin).
  - exists [ConsoleError (lit "streaming error:") e; ResWrite stream_error_notice].
    rewrite (get_stream_rejected _ _ _ H).
    split; [reflexivity|].
    split; [|split]; [|intros x|intros x]; intros Hin; simpl in Hin;
      decompose [or] Hin; try discriminate; assumption.
Qed.

Lemma get_stream_ends_once llm req :
  completion (get_stream llm req) = Normal tt
  /\ (exists pre,
         trace (get_stream llm req) = pre ++ [ResEnd]
         /\ ~ In ResEnd pre
         /\ forall v, ~ In (ResSend v) pre)
  /\ writableEnded (response_of (trace (get_stream llm req))) = true
  /\ statusCode (response_of (trace (get_stream llm req))) = 200%Z.
Proof.
  destruct (get_stream_shapes llm req) as [pre [E [H1 [H2 H3]]]].
  rewrite E. unfold completion, trace, fst, snd.
  split; [reflexivity|]. split; [exists pre; auto|]. split.
  - apply ended_by_ResEnd.
  - unfold response_of. rewrite statusCode_fold; [reflexivity|].
    intros code Hin. apply in_app_or in Hin as [Hin|Hin].
    + exact (H3 code Hin).
    + simpl in Hin. destruct Hin as [Hin|[]]. discriminate.
Qed.

Lemma stream_handler_constructed llm req :
  query req <> VUndefined ->
  stream_handler (Normal llm) req = get_stream llm req.
Proof.
  intros Hq. unfold stream_handler, await, bind.
  destruct (query req) as [|q] eqn:E; [congruence|].
  cbn [new_HumanMessage app]. destruct (get_stream llm req); reflexivity.
Qed.

(** X1: the runs of the [/stream] handler from its first statement.
    When [new ChatOpenAI] throws, or the request has no query so that
    [new HumanMessage] throws, the handler throws before its [try] and
    makes no call on [res].  When both constructors return, then
    whatever the producer does the handler completes without raising,
    calls [res.end()] exactly once, as its last action, never calls
    [res.send], and leaves the status at 200. *)
Theorem stream_handler_every_run (new_ChatOpenAI : Completion ChatOpenAI) req :
  (forall llm,
      new_ChatOpenAI = Normal llm -> query req <> VUndefined ->
      completion (stream_handler new_ChatOpenAI req) = Normal tt
      /\ (exists pre,
             trace (stream_handler new_ChatOpenAI req) = pre ++ [ResEnd]
             /\ ~ In ResEnd pre
             /\ forall v, ~ In (ResSend v) pre)
      /\ writableEnded (response_of (trace (stream_handler new_ChatOpenAI req))) = true
      /\ statusCode (response_of (trace (stream_handler new_ChatOpenAI req))) = 200%Z)
  /\ (forall e,
         new_ChatOpenAI = Thrown e ->
         stream_handler new_ChatOpenAI req = ([], Thrown e))
  /\ (forall llm,
         new_ChatOpenAI = Normal llm -> query req = VUndefined ->
         trace (stream_handler new_ChatOpenAI req) = []
         /\ exists e, completion (stream_handler new_ChatOpenAI req) = Thrown e).
Proof.
  split; [|split].
  - intros llm -> Hq. rewrite (stream_handler_constructed llm req Hq).
    apply get_stream_ends_once.
  - intros e ->. reflexivity.
  - intros llm -> Hq. unfold stream_handler. rewrite Hq.
    split; [reflexivity|]. eexists. reflexivity.
Qed.

Lemma stream_handler_every_run_witness :
  completion (stream_handler
                (Normal (llm_streaming (Normal (yields mixed_chunks (Fail an_error)))))
                a_request)
  = Normal tt.
Proof.
  apply (proj1 (stream_handler_every_run
                  (Normal (llm_streaming (Normal (yields mixed_chunks (Fail an_error)))))
                  a_request)
               (llm_streaming (Normal (yields mixed_chunks (Fail an_error))))).
  - reflexivity.
  - discriminate.
Defined.

Lemma sentHeaders_fold_sent (tr : list Effect) (r : Response) hs :
  sentHeaders r = Some hs ->
  sentHeaders (fold_left apply_effect tr r) = Some hs.
Proof.
  revert r; induction tr as [|op tr IH]; intros r H; simpl; [exact H|].
  apply IH. destruct op; simpl; try exact H; unfold flush_headers; now rewrite H.
Qed.

Lemma sentHeaders_fold_flush (tr : list Effect) (r : Response) :
  (forall n v, ~ In (ResSetHeader n v) tr) ->
  In ResEnd tr ->
  sentHeaders r = None ->
  sentHeaders (fold_left apply_effect tr r) = Some (headers r).
Proof.
  revert r; induction tr as [|op tr IH]; intros r Hno Hend Hr; [destruct Hend|].
  assert (Hno' : forall n v, ~ In (ResSetHeader n v) tr)
    by (intros n v Hin; apply (Hno n v); right; exact Hin).
  cbn [fold_left].
  destruct op as [code|n0 v0|d| |b|l e0].
  - destruct Hend as [Hend|Hend]; [discriminate|].
    apply (IH (apply_effect r (ResStatus code)) Hno' Hend Hr).
  - exfalso. apply (Hno n0 v0). left; reflexivity.
  - apply sentHeaders_fold_sent. simpl. unfold flush_headers. now rewrite Hr.
  - apply sentHeaders_fold_sent. simpl. unfold flush_headers. now rewrite Hr.
  - apply sentHeaders_fold_sent. simpl. unfold flush_headers. now rewrite Hr.
  - destruct Hend as [Hend|Hend]; [discriminate|].
    apply (IH (apply_effect r (ConsoleError l e0)) Hno' Hend Hr).
Qed.

Lemma headers_fold_no_set (tr : list Effect) (r : Response) :
  (forall n v, ~ In (ResSetHeader n v) tr) ->
  headers (fold_left apply_effect tr r) = headers r.
Proof.
  revert r; induction tr as [|op tr IH]; intros r Hno; [reflexivity|].
  cbn [fold_left]. rewrite IH.
  - destruct op as [code|n0 v0|d| |b|l e0]; try reflexivity.
    exfalso. apply (Hno n0 v0). left; reflexivity.
  - intros n v Hin. apply (Hno n v). right; exact Hin.
Qed.

(** X2: once the call that opens the stream has succeeded, the headers
    that go out ahead of the body are exactly the three framing headers,
    whether the sequence then yields, completes at once or fails before
    its first chunk. *)
Theorem get_stream_headers_when_opened llm req s :
  stream llm [HumanMessage (query req)] = Normal s ->
  sentHeaders (response_of (trace (get_stream llm req))) = Some sse_headers
  /\ headers (response_of (trace (get_stream llm req))) = sse_headers.
Proof.
  intros H.
  assert (E : exists rest, trace (get_stream llm req) = set_sse_headers ++ rest
                           /\ In ResEnd rest
                           /\ forall n v, ~ In (ResSetHeader n v) rest).
  { destruct (async_seq_shape Message s) as [chunks [->|[e ->]]].
    - rewrite (get_stream_done _ _ _ H). eexists. split; [reflexivity|].
      split; [apply in_or_app; right; left; reflexivity|].
      intros n v Hin. apply in_app_or in Hin as [Hin|Hin].
      + unfold write_frames in Hin. apply in_map_iff in Hin as [c [Hc _]].
        discriminate.
      + simpl in Hin. destruct Hin as [Hin|[]]. discriminate.
    - rewrite (get_stream_fail _ _ _ _ H). eexists. split; [reflexivity|].
      split; [apply in_or_app; right; simpl; auto|].
      intros n v Hin. apply in_app_or in Hin as [Hin|Hin].
      + unfold write_frames in Hin. apply in_map_iff in Hin as [c [Hc _]].
        discriminate.
      + simpl in Hin. decompose [or] Hin; try discriminate; assumption. }
  destruct E as [rest [-> [Hend Hno]]].
  rewrite response_of_app.
  change (response_of set_sse_headers)
    with (mkResponse 200 sse_headers None [] false).
  split.
  - rewrite (sentHeaders_fold_flush rest _ Hno Hend); reflexivity.
  - rewrite (headers_fold_no_set rest _ Hno). reflexivity.
Qed.

Lemma get_stream_headers_when_opened_witness :
  sentHeaders (response_of (trace (get_stream
                 (llm_streaming (Normal (Fail an_error))) a_request)))
  = Some sse_headers.
Proof.
  apply (get_stream_headers_when_opened
           (llm_streaming (Normal (Fail an_error))) a_request (Fail an_error)).
  reflexivity.
Defined.

(** ** Frames *)

Lemma hex_digit_printable (n : N) : (32 <= JSON.hex_digit n)%N.
Proof. unfold JSON.hex_digit. destruct (n <? 10)%N; lia. Qed.

Lemma quote_unit_printable (c : N) :
  Forall (fun u => (32 <= u)%N) (JSON.quote_unit c).
Proof.
  unfold JSON.quote_unit, JSON.table_escape.
  repeat match goal with
         | |- context [(c =? ?k)%N] =>
             destruct (c =? k)%N;
             [repeat constructor; unfold BACKSLASH; lia|]
         end.
  destruct ((c <? 32)%N || JSON.is_leading_surrogate c
            || JSON.is_trailing_surrogate c) eqn:E.
  - unfold JSON.UnicodeEscape.
    repeat constructor; try apply hex_digit_printable; unfold BACKSLASH; lia.
  - apply orb_false_iff in E as [E _]. apply orb_false_iff in E as [E _].
    apply N.ltb_ge in E. repeat constructor. exact E.
Qed.

Lemma quote_body_printable (s : jsstring) :
  Forall (fun u => (32 <= u)%N) (JSON.quote_body s).
Proof.
  induction s as [| a | a b l IHl IHbl] using list_pair_ind.
  - constructor.
  - change (JSON.quote_body [a]) with (JSON.quote_unit a ++ []).
    rewrite app_nil_r. apply quote_unit_printable.
  - rewrite quote_body_cons2.
    destruct (JSON.is_leading_surrogate a && JSON.is_trailing_surrogate b) eqn:E.
    + apply andb_true_iff in E as [Ea Eb].
      unfold JSON.is_leading_surrogate in Ea.
      unfold JSON.is_trailing_surrogate in Eb.
      apply andb_true_iff in Ea as [Ea _]. apply andb_true_iff in Eb as [Eb _].
      apply N.leb_le in Ea, Eb.
      constructor; [lia|]. constructor; [lia|]. exact IHl.
    + apply Forall_app. split; [apply quote_unit_printable | exact IHbl].
Qed.

(** X3: the frame of a text fragment is one line: apart from the two line
    feeds that end it, it holds no code unit below 32 (no line feed, no
    carriage return, no other control character), whatever the fragment
    contains; its payload starts and ends with a quote. *)
Theorem frame_is_a_single_line (s : jsstring) :
  exists body,
    frame (VString s)
    = (lit "data: " ++ DQUOTE :: body ++ [DQUOTE]) ++ [LF; LF]
    /\ Forall (fun u => (32 <= u)%N) (lit "data: " ++ DQUOTE :: body ++ [DQUOTE]).
Proof.
  exists (JSON.quote_body s). split.
  - unfold frame, JSON_stringify, JSON.QuoteJSONString.
    rewrite <- !app_assoc. reflexivity.
  - apply Forall_app. split.
    + repeat constructor; simpl; lia.
    + constructor; [unfold DQUOTE; lia|].
      apply Forall_app. split; [apply quote_body_printable|].
      repeat constructor. unfold DQUOTE; lia.
Qed.

(** X4: framing loses nothing: two text fragments with the same frame
    are the same fragment. *)
Theorem frame_injective (s1 s2 : jsstring) :
  frame (VString s1) = frame (VString s2) -> s1 = s2.
Proof.
  unfold frame, JSON_stringify. intros H.
  apply app_inv_head in H. apply app_inv_tail in H.
  pose proof (parse_string_QuoteJSONString s1) as H1.
  rewrite H, parse_string_QuoteJSONString in H1.
  congruence.
Qed.

Lemma frame_injective_witness :
  frame (VString (lit "a")) = frame (VString (lit "a")) /\ lit "a" = lit "a".
Proof.
  split; [reflexivity|].
  apply (frame_injective (lit "a") (lit "a")). reflexivity.
Defined.

(** ** The single-shot route on every run *)

Lemma get_normal_sends_once llm req :
  completion (get_normal llm req) = Normal tt
  /\ (exists pre v,
         trace (get_normal llm req) = pre ++ [ResSend v]
         /\ forallb is_console_error pre = true)
  /\ writes (trace (get_normal llm req)) = []
  /\ sentHeaders (response_of (trace (get_normal llm req))) = Some []
  /\ writableEnded (response_of (trace (get_normal llm req))) = true.
Proof.
  unfold get_normal.
  destruct (invoke llm [HumanMessage (query req)]) as [m|e].
  - split; [reflexivity|]. split; [|repeat split].
    exists [], (if has_content m then content m else VString no_answer).
    split; reflexivity.
  - split; [reflexivity|]. split; [|repeat split].
    exists [ConsoleError (lit "Error invoking LLM:") e],
           (VString summary_error_notice).
    split; reflexivity.
Qed.

Lemma normal_handler_constructed llm req :
  query req <> VUndefined ->
  normal_handler (Normal llm) req = get_normal llm req.
Proof.
  intros Hq. unfold normal_handler, await, bind.
  destruct (query req) as [|q] eqn:E; [congruence|].
  cbn [new_HumanMessage app]. destruct (get_normal llm req); reflexivity.
Qed.

(** X5: the runs of the [/normal] handler from its first statement.
    When [new ChatOpenAI] throws, or the request has no query so that
    [new HumanMessage] throws, the handler throws before its [try] and
    makes no call on [res].  When both constructors return, then
    whatever the producer does the handler completes without raising and
    answers with exactly one [res.send], its last action; before it
    there is at most the error log: no header is set and nothing is
    written piecewise. *)
Theorem normal_handler_every_run (new_ChatOpenAI : Completion ChatOpenAI) req :
  (forall llm,
      new_ChatOpenAI = Normal llm -> query req <> VUndefined ->
      completion (normal_handler new_ChatOpenAI req) = Normal tt
      /\ (exists pre v,
             trace (normal_handler new_ChatOpenAI req) = pre ++ [ResSend v]
             /\ forallb is_console_error pre = true)
      /\ writes (trace (normal_handler new_ChatOpenAI req)) = []
      /\ sentHeaders (response_of (trace (normal_handler new_ChatOpenAI req))) = Some []
      /\ writableEnded (response_of (trace (normal_handler new_ChatOpenAI req))) = true)
  /\ (forall e,
         new_ChatOpenAI = Thrown e ->
         normal_handler new_ChatOpenAI req = ([], Thrown e))
  /\ (forall llm,
         new_ChatOpenAI = Normal llm -> query req = VUndefined ->
         trace (normal_handler new_ChatOpenAI req) = []
         /\ exists e, completion (normal_handler new_ChatOpenAI req) = Thrown e).
Proof.
  split; [|split].
  - intros llm -> Hq. rewrite (normal_handler_constructed llm req Hq).
    apply get_normal_sends_once.
  - intros e ->. reflexivity.
  - intros llm -> Hq. unfold normal_handler. rewrite Hq.
    split; [reflexivity|]. eexists. reflexivity.
Qed.

Lemma normal_handler_every_run_witness :
  completion (normal_handler (Normal (llm_answering (Thrown an_error))) a_request)
  = Normal tt.
Proof.
  apply (proj1 (normal_handler_every_run
                  (Normal (llm_answering (Thrown an_error))) a_request)
               (llm_answering (Thrown an_error))).
  - reflexivity.
  - discriminate.
Defined.

(** ** [cleanText] on what the server sends *)

(** X6: whatever the buffer, the text [cleanText] returns has no two
    adjacent quotes, has no white space at either end, and is not longer
    than the buffer. *)
Theorem cleanText_output_invariants (text : jsstring) :
  has_quote_pair (cleanText text) = false
  /\ head_kept (cleanText text) = true
  /\ last_kept (cleanText text) = true
  /\ List.length (cleanText text) <= List.length text.
Proof.
  split; [apply cleanText_no_pair|]. split; [|split].
  - unfold cleanText, trim. apply trimEnd_head, trimStart_head.
  - unfold cleanText, trim. apply trimEnd_last.
  - apply cleanText_length.
Qed.

Lemma no_quote_starts (text : jsstring) :
  ~ In DQUOTE text -> starts_with_quote text = false.
Proof.
  destruct text as [|c rest]; [reflexivity|]. simpl. intros H.
  apply N.eqb_neq. intros ->. apply H. left; reflexivity.
Qed.

Lemma no_quote_pair (text : jsstring) :
  ~ In DQUOTE text -> has_quote_pair text = false.
Proof.
  induction text as [|c rest IH]; [reflexivity|]. intros H.
  rewrite has_quote_pair_cons, IH.
  - replace (c =? DQUOTE)%N with false; [reflexivity|].
    symmetry. apply N.eqb_neq. intros ->. apply H. left; reflexivity.
  - intros Hin. apply H. right; exact Hin.
Qed.

Lemma last_in (text : jsstring) (d : N) :
  text <> [] -> In (last text d) text.
Proof.
  induction text as [|c rest IH]; [congruence|]. intros _.
  destruct rest as [|c' rest']; [left; reflexivity|]. right.
  change (last (c :: c' :: rest') d) with (last (c' :: rest') d).
  apply IH. discriminate.
Qed.

Lemma no_quote_ends (text : jsstring) :
  ~ In DQUOTE text -> ends_with_quote text = false.
Proof.
  unfold ends_with_quote. intros H. apply N.eqb_neq. intros E.
  destruct text as [|c rest]; [discriminate|].
  apply H. rewrite <- E. apply last_in. discriminate.
Qed.

(** X7: on a buffer that holds no quote, [cleanText] only trims. *)
Theorem cleanText_without_quotes (text : jsstring) :
  ~ In DQUOTE text -> cleanText text = trim text.
Proof.
  intros H. unfold cleanText.
  rewrite replace_leading_quote_spec, (no_quote_starts text H).
  rewrite (replace_quote_pairs_fixed text (no_quote_pair text H)).
  rewrite replace_trailing_quote_spec, (no_quote_ends text H).
  reflexivity.
Qed.

Lemma cleanText_without_quotes_witness :
  cleanText (lit " Hello ") = lit "Hello".
Proof.
  rewrite (cleanText_without_quotes (lit " Hello ")).
  - reflexivity.
  - vm_compute. intros H. decompose [or] H; try discriminate; assumption.
Defined.

Lemma is_plain_facts (c : N) :
  is_plain c = true ->
  (c =? DQUOTE)%N = false /\ (c =? BACKSLASH)%N = false /\ (c <? 32)%N = false
  /\ JSON.is_leading_surrogate c = false /\ JSON.is_trailing_surrogate c = false.
Proof.
  unfold is_plain. intros H.
  repeat (apply andb_true_iff in H as [H ?]).
  repeat match goal with
         | X : negb _ = true |- _ => apply negb_true_iff in X
         end.
  apply N.leb_le in H. repeat split; try assumption. apply N.ltb_ge. exact H.
Qed.

Lemma quote_unit_plain (c : N) : is_plain c = true -> JSON.quote_unit c = [c].
Proof.
  intros H. destruct (is_plain_facts c H) as [H1 [H2 [H3 [H4 H5]]]].
  unfold JSON.quote_unit, JSON.table_escape.
  assert (H32 : (32 <= c)%N) by (apply N.ltb_ge; exact H3).
  unfold DQUOTE in H1. unfold BACKSLASH in H2.
  replace (c =? 8)%N with false by (symmetry; apply N.eqb_neq; lia).
  replace (c =? 9)%N with false by (symmetry; apply N.eqb_neq; lia).
  replace (c =? 10)%N with false by (symmetry; apply N.eqb_neq; lia).
  replace (c =? 12)%N with false by (symmetry; apply N.eqb_neq; lia).
  replace (c =? 13)%N with false by (symmetry; apply N.eqb_neq; lia).
  rewrite H1, H2, H3, H4, H5. reflexivity.
Qed.

Lemma quote_body_plain (s : jsstring) :
  forallb is_plain s = true -> JSON.quote_body s = s.
Proof.
  induction s as [|c rest IH]; [reflexivity|]. intros H.
  apply andb_true_iff in H as [Hc Hrest].
  assert (E : JSON.quote_body (c :: rest)
              = JSON.quote_unit c ++ JSON.quote_body rest).
  { destruct rest as [|d rest']; [reflexivity|].
    rewrite quote_body_cons2.
    destruct (is_plain_facts c Hc) as [_ [_ [_ [H4 _]]]]. now rewrite H4. }
  rewrite E, (quote_unit_plain c Hc), (IH Hrest). reflexivity.
Qed.

Lemma plain_no_quote (s : jsstring) :
  forallb is_plain s = true -> ~ In DQUOTE s.
Proof.
  intros H Hin. rewrite forallb_forall in H. specialize (H _ Hin).
  discriminate.
Qed.

Lemma replace_quote_pairs_skip (f rest : jsstring) :
  ~ In DQUOTE f ->
  replace_quote_pairs (f ++ rest) = f ++ replace_quote_pairs rest.
Proof.
  induction f as [|c f IH]; [reflexivity|]. intros H.
  cbn [app]. rewrite replace_quote_pairs_cons.
  replace (c =? DQUOTE)%N with false.
  - cbn [andb]. rewrite IH; [reflexivity|].
    intros Hin. apply H. right; exact Hin.
  - symmetry. apply N.eqb_neq. intros ->. apply H. left; reflexivity.
Qed.

(** The raw buffer of fragments whose code units are all plain. *)
Lemma replace_quote_pairs_joined (fs : list jsstring) (f : jsstring) :
  ~ In DQUOTE f ->
  Forall (fun g => ~ In DQUOTE g) fs ->
  replace_quote_pairs
    (f ++ DQUOTE :: List.concat (List.map (fun g => DQUOTE :: g ++ [DQUOTE]) fs))
  = List.concat (f :: fs) ++ [DQUOTE].
Proof.
  intros Hf Hfs. revert f Hf.
  induction Hfs as [|g fs Hg Hfs IH]; intros f Hf.
  - cbn [List.map List.concat]. rewrite replace_quote_pairs_skip by exact Hf.
    rewrite app_nil_r. reflexivity.
  - cbn [List.map List.concat].
    rewrite replace_quote_pairs_skip by exact Hf.
    cbn [app].
    change (replace_quote_pairs
              (DQUOTE :: DQUOTE ::
                 (g ++ [DQUOTE])
                 ++ List.concat (List.map (fun g0 => DQUOTE :: g0 ++ [DQUOTE]) fs)))
      with (replace_quote_pairs
              ((g ++ [DQUOTE])
                 ++ List.concat (List.map (fun g0 => DQUOTE :: g0 ++ [DQUOTE]) fs))).
    rewrite <- app_assoc. cbn [app].
    rewrite (IH g Hg). cbn [List.concat]. rewrite <- !app_assoc. reflexivity.
Qed.

Lemma replace_trailing_quote_snoc (text : jsstring) :
  replace_trailing_quote (text ++ [DQUOTE]) = text.
Proof.
  rewrite replace_trailing_quote_spec. unfold ends_with_quote.
  rewrite last_last, removelast_last. reflexivity.
Qed.

(** X8: when every code unit of every fragment is one [JSON.stringify]
    copies as it is (no quote, backslash, control character or surrogate),
    the text shown for the joined payloads of the fragments is their
    concatenation, trimmed: the quotes around each payload cancel. *)
Theorem cleanText_of_plain_payloads (fs : list jsstring) :
  Forall (fun f => forallb is_plain f = true) fs ->
  cleanText (List.concat (List.map payload fs)) = trim (List.concat fs).
Proof.
  intros Hfs.
  assert (E : List.map payload fs
              = List.map (fun g => DQUOTE :: g ++ [DQUOTE]) fs).
  { induction Hfs as [|f fs Hf _ IH]; [reflexivity|].
    cbn [List.map]. rewrite IH. f_equal.
    unfold payload, JSON_stringify, JSON.QuoteJSONString.
    now rewrite (quote_body_plain f Hf). }
  rewrite E. destruct Hfs as [|f fs Hf Hfs]; [reflexivity|].
  unfold cleanText. f_equal.
  cbn [List.map List.concat app replace_leading_quote].
  change (DQUOTE =? DQUOTE)%N with true. cbv iota.
  rewrite <- app_assoc. cbn [app].
  rewrite replace_quote_pairs_joined.
  - apply replace_trailing_quote_snoc.
  - apply plain_no_quote, Hf.
  - eapply Forall_impl; [|exact Hfs]. intros g. apply plain_no_quote.
Qed.

Lemma cleanText_of_plain_payloads_witness :
  cleanText (List.concat (List.map payload [lit "Hel"; lit "lo, wor"; lit "ld"]))
  = lit "Hello, world".
Proof.
  rewrite (cleanText_of_plain_payloads [lit "Hel"; lit "lo, wor"; lit "ld"]).
  - reflexivity.
  - repeat constructor.
Defined.

(** ** What the page shows *)

Lemma last_cons_default (A : Type) (a : A) (l : list A) (d d' : A) :
  last (a :: l) d = last (a :: l) d'.
Proof.
  revert a; induction l as [|b l IH]; intros a; [reflexivity|].
  change (last (a :: b :: l) d) with (last (b :: l) d).
  change (last (a :: b :: l) d') with (last (b :: l) d').
  apply IH.
Qed.

Lemma last_app_default (A : Type) (l1 l2 : list A) (d : A) :
  last (l1 ++ l2) d = last l2 (last l1 d).
Proof.
  revert d; induction l1 as [|a l1 IH]; intros d; [reflexivity|].
  destruct l1 as [|b l1].
  - destruct l2 as [|a0 l2]; [reflexivity|].
    change (last ([a] ++ a0 :: l2) d) with (last (a0 :: l2) d).
    apply last_cons_default.
  - change (last ((a :: b :: l1) ++ l2) d) with (last ((b :: l1) ++ l2) d).
    change (last (a :: b :: l1) d) with (last (b :: l1) d).
    apply IH.
Qed.

Lemma container_texts_app (log1 log2 : list DomEffect) :
  container_texts (log1 ++ log2) = container_texts log1 ++ container_texts log2.
Proof.
  induction log1 as [|op log1 IH]; simpl; [reflexivity|].
  destruct op; simpl; rewrite IH; reflexivity.
Qed.

Lemma container_innerHTML_app (init : jsstring) (log1 log2 : list DomEffect) :
  container_innerHTML init (log1 ++ log2)
  = container_innerHTML (container_innerHTML init log1) log2.
Proof.
  unfold container_innerHTML. rewrite container_texts_app. apply last_app_default.
Qed.

Lemma onmessage_container (init : jsstring) (s : Session) (now : float) (data : jsstring) :
  container_innerHTML init (snd (onmessage s now data))
  = cleanText (accumulatedText s ++ data).
Proof.
  unfold onmessage. cbn [snd]. rewrite container_innerHTML_app.
  reflexivity.
Qed.

Lemma deliver_container (init : jsstring) (s : Session)
      (events : list (float * jsstring)) :
  container_innerHTML init (snd (deliver s events))
  = match events with
    | [] => init
    | _ :: _ => cleanText (accumulatedText s ++ List.concat (List.map snd events))
    end.
Proof.
  revert init s; induction events as [|[now data] events IH]; intros init s;
    [reflexivity|].
  cbn [deliver].
  pose proof (onmessage_container init s now data) as Hm.
  destruct (onmessage s now data) as [s1 out1] eqn:E1.
  assert (Hs1 : accumulatedText s1 = accumulatedText s ++ data).
  { unfold onmessage in E1. injection E1 as <- _. reflexivity. }
  specialize (IH (container_innerHTML init out1) s1).
  destruct (deliver s1 events) as [s2 out2].
  cbn [snd] in *. rewrite container_innerHTML_app, IH, Hm, Hs1.
  destruct events as [|ev events].
  - cbn [List.map List.concat snd]. rewrite app_nil_r. reflexivity.
  - cbn [List.map List.concat snd]. rewrite <- app_assoc. reflexivity.
Qed.

(** X9: at any point of a stream session the container shows the
    cleaned form of everything received so far; while no message has
    arrived it still shows the loading text, which nothing else in the
    session removes. *)
Theorem stream_session_display
        (init : jsstring) (t0 : float) (query : jsstring)
        (events : list (float * jsstring)) :
  container_innerHTML init (snd (run_session t0 query events))
  = match events with
    | [] => loading_markup
    | _ :: _ => cleanText (List.concat (List.map snd events))
    end.
Proof.
  unfold run_session, submit_stream.
  pose proof (deliver_container
                (container_innerHTML init
                   (showLoading true ++ cleanElapsedTime ++ [NewEventSource query]))
                (mkSession t0 []) events) as H.
  destruct (deliver (mkSession t0 []) events) as [s out].
  cbn [snd] in *. rewrite container_innerHTML_app, H.
  destruct events; reflexivity.
Qed.

(** X10: an error on the stream only closes the subscription: the
    buffer and the start time are kept and nothing is assigned to the
    page, so the container keeps what it showed and no error is shown. *)
Theorem stream_error_leaves_page
        (init_c init_e : jsstring) (t0 : float) (query : jsstring)
        (events : list (float * jsstring)) :
  let (s, log) := run_session t0 query events in
  fst (onerror s) = s
  /\ container_innerHTML init_c (log ++ snd (onerror s))
     = container_innerHTML init_c log
  /\ elapsed_innerText init_e (log ++ snd (onerror s))
     = elapsed_innerText init_e log
  /\ In CloseEventSource (snd (onerror s)).
Proof.
  destruct (run_session t0 query events) as [s log].
  split; [reflexivity|]. split; [|split].
  - rewrite container_innerHTML_app. reflexivity.
  - unfold elapsed_innerText. rewrite elapsed_texts_app, last_app_default.
    reflexivity.
  - left; reflexivity.
Qed.















